(** * concatenate_diagrams.py: the text-transformation pipeline

    A shallow embedding of the three transforms of
    [src/concatenate_diagrams.py]:

    - [replace_problematic_characters_in_signature] (one line),
    - [replace_dots_with_underscores] (one identifier),
    - [ensure_classes_declared] (the whole document).

    Python strings are sequences of Unicode code points; a string is a
    [list N] here.  The three regular expressions of the source are kept
    as syntax trees and run by a backtracking matcher with Python's
    priority order (greedy quantifiers, longest count first).  A Python
    [set] of strings is a duplicate-free list, and the one list
    subscript of the source is a partial lookup that raises
    [IndexError]. *)

From Stdlib Require Import NArith Ascii String Bool Arith Lia Sorted List.
Import ListNotations.

Set Implicit Arguments.

(** ** Characters and strings *)

Definition char := N.
Definition str := list char.

Definition chr (a : ascii) : char := N_of_ascii a.

(** [py "abc"] is the Python string literal ['abc']. *)
Definition py (s : string) : str := map chr (list_ascii_of_string s).

Definition LF : char := 10%N.

Definition char_eqb (a b : char) : bool := N.eqb a b.

Fixpoint str_eqb (a b : str) : bool :=
  match a, b with
  | [], [] => true
  | x :: a', y :: b' => char_eqb x y && str_eqb a' b'
  | _, _ => false
  end.

(** Python compares strings by code point, lexicographically. *)
Fixpoint str_leb (a b : str) : bool :=
  match a, b with
  | [], _ => true
  | _ :: _, [] => false
  | x :: a', y :: b' =>
      if N.ltb x y then true
      else if N.ltb y x then false
      else str_leb a' b'
  end.

(** ** The Unicode character database

    [\s], [\w] and [str.strip] consult CPython's character tables.  For
    code points below 128 the tables are written out; above, they are a
    parameter.  No code point is both whitespace and alphanumeric. *)

Record unicode_db := UnicodeDB {
  uni_isspace : char -> bool;
  uni_isalnum : char -> bool;
  uni_disjoint : forall c, uni_isspace c && uni_isalnum c = false
}.

(** A database with nothing outside ASCII. *)
Definition ascii_db : unicode_db :=
  @UnicodeDB (fun _ => false) (fun _ => false) (fun _ => eq_refl).

Definition between (lo hi c : N) : bool := N.leb lo c && N.leb c hi.

(** TAB, LF, VT, FF, CR, FS, GS, RS, US and SPACE. *)
Definition ascii_isspace (c : char) : bool :=
  between 9 13 c || between 28 32 c.

Definition ascii_isalnum (c : char) : bool :=
  between 48 57 c || between 65 90 c || between 97 122 c.

(** The scenario of the specification: a declaration of
    [ChatHistoryManager] and two relationships from [Extension]. *)
Definition scenario_input : list str :=
  map py
    [ "```mermaid"; "classDiagram";
      "    class ChatHistoryManager {";
      "        -chatHistory: CoreMessage[]";
      "        +addMessage(role: 'user' | 'assistant', content: string): void";
      "    }";
      "";
      "    Extension --> vscode.ExtensionContext";
      "    Extension --> FilteredTreeDataProvider";
      "";
      "```" ]%string.

Definition scenario_output : list str :=
  map py
    [ "```mermaid"; "classDiagram";
      "    class ChatHistoryManager {";
      "        -chatHistory: CoreMessage[]";
      "        +addMessage(role: 'user' | 'assistant', content: string): void";
      "    }";
      "";
      "    Extension --> vscode_ExtensionContext";
      "    Extension --> FilteredTreeDataProvider";
      "";
      "class Extension";
      "class FilteredTreeDataProvider";
      "class vscode_ExtensionContext";
      "```" ]%string.

Section Pipeline.

Variable db : unicode_db.

Definition isspace (c : char) : bool :=
  if N.ltb c 128 then ascii_isspace c else uni_isspace db c.

Definition isalnum (c : char) : bool :=
  if N.ltb c 128 then ascii_isalnum c else uni_isalnum db c.

(** [\w]: alphanumeric or underscore. *)
Definition isword (c : char) : bool := isalnum c || char_eqb c (chr "_").

(** ** str methods *)

Fixpoint lstrip (s : str) : str :=
  match s with
  | c :: s' => if isspace c then lstrip s' else s
  | [] => []
  end.

Definition rstrip (s : str) : str := rev (lstrip (rev s)).

Definition strip (s : str) : str := rstrip (lstrip s).

(** [s.replace(old, new)] for one-character [old] and [new]. *)
Definition str_replace (old new : char) (s : str) : str :=
  map (fun c => if char_eqb c old then new else c) s.

(** ** Regular expressions

    Every pattern of the source is a sequence of quantified character
    classes, some of them inside capture groups. *)

Inductive citem : Type :=
| ISpace                (* \s *)
| IWord                 (* \w *)
| IChar (c : char).     (* a literal character *)

Inductive cclass : Type :=
| COne (i : citem)          (* \s, \w, or a literal *)
| CSet (l : list citem)     (* [...] *)
| CNot (l : list citem)     (* [^...] *)
| CDot.                     (* . without DOTALL: anything but a line feed *)

Inductive quant : Type := Once | Star | Plus | Opt.

Record atom := Atom { a_class : cclass; a_quant : quant }.

Inductive seg : Type :=
| Group (l : list atom)     (* ( ... ) *)
| Bare (l : list atom).

Definition item_match (i : citem) (c : char) : bool :=
  match i with
  | ISpace => isspace c
  | IWord => isword c
  | IChar d => char_eqb c d
  end.

Definition class_match (k : cclass) (c : char) : bool :=
  match k with
  | COne i => item_match i c
  | CSet l => existsb (fun i => item_match i c) l
  | CNot l => negb (existsb (fun i => item_match i c) l)
  | CDot => negb (char_eqb c LF)
  end.

(** Length of the longest prefix of [s] inside the class. *)
Fixpoint run_len (k : cclass) (s : str) : nat :=
  match s with
  | c :: s' => if class_match k c then S (run_len k s') else 0
  | [] => 0
  end.

Definition q_min (q : quant) : nat :=
  match q with Once | Plus => 1 | Star | Opt => 0 end.

(** Largest repetition count a quantifier tries when [n] characters are
    available. *)
Definition q_max (q : quant) (n : nat) : nat :=
  match q with Once | Opt => Nat.min 1 n | Star | Plus => n end.

(** Backtracking: try count [k], then [k-1], ... down to [lo]; the
    first count whose continuation matches wins. *)
Fixpoint try_down (cont : str -> option (list nat)) (s : str)
         (lo k : nat) : option (list nat) :=
  match cont (skipn k s) with
  | Some r => Some (k :: r)
  | None =>
      match k with
      | 0 => None
      | S k' => if Nat.ltb k' lo then None else try_down cont s lo k'
      end
  end.

(** The match, as the list of the lengths each atom consumed. *)
Fixpoint match_atoms (l : list atom) (s : str) : option (list nat) :=
  match l with
  | [] => Some []
  | a :: l' =>
      let hi := q_max (a_quant a) (run_len (a_class a) s) in
      let lo := q_min (a_quant a) in
      if Nat.ltb hi lo then None
      else try_down (match_atoms l') s lo hi
  end.

Definition seg_atoms (g : seg) : list atom :=
  match g with Group l | Bare l => l end.

Definition atoms_of (p : list seg) : list atom := flat_map seg_atoms p.

(** Texts of the capture groups, given the lengths the atoms consumed. *)
Fixpoint groups_of (p : list seg) (ls : list nat) (s : str) : list str :=
  match p with
  | [] => []
  | g :: p' =>
      let n := length (seg_atoms g) in
      let w := list_sum (firstn n ls) in
      let rest := groups_of p' (skipn n ls) (skipn w s) in
      match g with
      | Group _ => firstn w s :: rest
      | Bare _ => rest
      end
  end.

(** [re.match(p, s)]: anchored at the start of [s], not at its end. *)
Definition re_match (p : list seg) (s : str) : option (list str) :=
  match match_atoms (atoms_of p) s with
  | Some ls => Some (groups_of p ls s)
  | None => None
  end.

(** [m.group(i)] for [i >= 1]. *)
Definition group (m : list str) (i : nat) : str := nth (pred i) m [].

Definition lit (a : ascii) : cclass := COne (IChar (chr a)).
Definition cset (l : list ascii) : list citem := map (fun a => IChar (chr a)) l.

(** ** replace_problematic_characters_in_signature *)

Definition char_map : list (str * str) :=
  [ (py "{", py "&#123;"); (py "}", py "&#125;") ].

Fixpoint dict_get (d : list (str * str)) (k dflt : str) : str :=
  match d with
  | [] => dflt
  | (k', v) :: d' => if str_eqb k k' then v else dict_get d' k dflt
  end.

(** [pattern] is the alternation of the keys of [char_map], each a
    single literal character; [pattern.sub(f, s)] rewrites every
    character that is a key. *)
Definition pattern_keys : list str := map fst char_map.

Definition pattern_sub (f : str -> str) (s : str) : str :=
  flat_map (fun c => if existsb (str_eqb [c]) pattern_keys then f [c] else [c]) s.

(** The pattern, atom by atom:
    [^ ( \s* [-+] \w+ \( [^)]* \) ) ( .* )] *)
Definition method_signature_pattern : list seg :=
  [ Group [ Atom (COne ISpace) Star;
            Atom (CSet (cset ["-"; "+"]%char)) Once;
            Atom (COne IWord) Plus;
            Atom (lit "(") Once;
            Atom (CNot (cset [")"]%char)) Star;
            Atom (lit ")") Once ];
    Group [ Atom CDot Star ] ].

Definition replace_problematic_characters_in_signature (line : str) : str :=
  match re_match method_signature_pattern line with
  | Some m =>
      let method_signature := group m 1 in
      let rest_of_line := group m 2 in
      let replaced_signature :=
        pattern_sub (fun g => dict_get char_map g g) method_signature in
      replaced_signature ++ rest_of_line
  | None => line
  end.

(** ** replace_dots_with_underscores *)

Definition replace_dots_with_underscores (class_name : str) : str :=
  str_replace (chr ".") (chr "_") class_name.

(** ** ensure_classes_declared *)

(** [^ ( \s* c l a s s \s+ ) ( [\w\.]+ ) ( \s* \{? [^}]* )] *)
Definition class_declaration_pattern : list seg :=
  [ Group [ Atom (COne ISpace) Star;
            Atom (lit "c") Once; Atom (lit "l") Once; Atom (lit "a") Once;
            Atom (lit "s") Once; Atom (lit "s") Once;
            Atom (COne ISpace) Plus ];
    Group [ Atom (CSet [IWord; IChar (chr ".")]) Plus ];
    Group [ Atom (COne ISpace) Star;
            Atom (lit "{") Opt;
            Atom (CNot (cset ["}"]%char)) Star ] ].

(** [^ \s* ( [\w\.]+ ) \s* ( [<|-]+ [->]+ ) \s* ( [\w\.]+ )] *)
Definition relationship_pattern : list seg :=
  [ Bare [ Atom (COne ISpace) Star ];
    Group [ Atom (CSet [IWord; IChar (chr ".")]) Plus ];
    Bare [ Atom (COne ISpace) Star ];
    Group [ Atom (CSet (cset ["<"; "|"; "-"]%char)) Plus;
            Atom (CSet (cset ["-"; ">"]%char)) Plus ];
    Bare [ Atom (COne ISpace) Star ];
    Group [ Atom (CSet [IWord; IChar (chr ".")]) Plus ] ].

(** [^ ( \s* )] *)
Definition leading_spaces_pattern : list seg :=
  [ Group [ Atom (COne ISpace) Star ] ].

(** A [set] of strings: [x in s], [s.add(x)] and [a - b]. *)
Definition set_mem (x : str) (s : list str) : bool := existsb (str_eqb x) s.

Definition set_add (x : str) (s : list str) : list str :=
  if set_mem x s then s else s ++ [x].

Definition set_diff (a b : list str) : list str :=
  filter (fun x => negb (set_mem x b)) a.

Fixpoint insert_sorted (x : str) (l : list str) : list str :=
  match l with
  | [] => [x]
  | y :: l' => if str_leb x y then x :: l else y :: insert_sorted x l'
  end.

(** [sorted(s)] *)
Definition sorted (s : list str) : list str := fold_right insert_sorted [] s.

Record scan_state := ScanState {
  declared_classes : list str;
  referenced_classes : list str;
  processed_lines : list str
}.

Definition scan_init : scan_state := ScanState [] [] [].

(** One iteration of the loop over [output_lines]. *)
Definition scan_line (st : scan_state) (line : str) : scan_state :=
  match re_match class_declaration_pattern line with
  | Some m =>
      let prefix := group m 1 in
      let class_name := strip (group m 2) in
      let suffix := group m 3 in
      let class_name_underscored := replace_dots_with_underscores class_name in
      let new_line := prefix ++ class_name_underscored ++ suffix in
      ScanState (set_add class_name_underscored (declared_classes st))
                (referenced_classes st)
                (processed_lines st ++ [new_line])
  | None =>
      match re_match relationship_pattern line with
      | Some m =>
          let source_class := strip (group m 1) in
          let relationship := strip (group m 2) in
          let target_class := strip (group m 3) in
          let source_class_underscored := replace_dots_with_underscores source_class in
          let target_class_underscored := replace_dots_with_underscores target_class in
          let leading_spaces :=
            match re_match leading_spaces_pattern line with
            | Some m' => group m' 1
            | None => []
            end in
          let new_line :=
            leading_spaces ++ source_class_underscored ++ py " " ++
            relationship ++ py " " ++ target_class_underscored in
          ScanState (declared_classes st)
                    (set_add target_class_underscored
                       (set_add source_class_underscored (referenced_classes st)))
                    (processed_lines st ++ [new_line])
      | None =>
          ScanState (declared_classes st) (referenced_classes st)
                    (processed_lines st ++ [line])
      end
  end.

Definition scan (output_lines : list str) : scan_state :=
  fold_left scan_line output_lines scan_init.

(** Exceptions. *)
Inductive exn : Type := IndexError.

Inductive result (A : Type) : Type :=
| Ok (a : A)
| Raise (e : exn).

Arguments Ok {A} a.
Arguments Raise {A} e.

Definition bind {A B} (r : result A) (k : A -> result B) : result B :=
  match r with
  | Ok a => k a
  | Raise e => Raise e
  end.

Notation "x <- r ;; k" := (bind r (fun x => k))
  (at level 61, r at next level, right associativity).

(** [l[i]] for [i >= 0]. *)
Definition subscript (l : list str) (i : nat) : result str :=
  match nth_error l i with
  | Some x => Ok x
  | None => Raise IndexError
  end.

Definition fence : str := py "```".

(** [for i in range(n - 1, -1, -1)]: the first [i] whose line strips to
    the fence. *)
Fixpoint find_closing (lines : list str) (n : nat) : result (option nat) :=
  match n with
  | 0 => Ok None
  | S i =>
      x <- subscript lines i ;;
      if str_eqb (strip x) fence then Ok (Some i) else find_closing lines i
  end.

Definition ensure_classes_declared (output_lines : list str) : result (list str) :=
  let st := scan output_lines in
  let processed := processed_lines st in
  let missing_classes := set_diff (referenced_classes st) (declared_classes st) in
  match missing_classes with
  | [] => Ok processed
  | _ :: _ =>
      found <- find_closing processed (length processed) ;;
      let '(processed, closing_code_block_index) :=
        match found with
        | Some i => (processed, i)
        | None => (processed ++ [[]], length (processed ++ [[]]))
        end in
      let missing_class_declarations :=
        map (fun class_name => py "class " ++ class_name) (sorted missing_classes) in
      missing_class_declarations <-
        (if Nat.ltb 0 closing_code_block_index then
           x <- subscript processed (closing_code_block_index - 1) ;;
           Ok (if negb (str_eqb (strip x) []) then [] :: missing_class_declarations
               else missing_class_declarations)
         else Ok missing_class_declarations) ;;
      Ok (firstn closing_code_block_index processed ++
          missing_class_declarations ++
          skipn closing_code_block_index processed)
  end.

(** ** concatenate_mermaid_diagrams_with_replacements

    The directory is given as the list of its files in the order of
    [os.listdir], each with its name and the lines its iteration yields;
    the result is the text written to the output file.  Console output
    is left out. *)

(** [s.startswith(p)] *)
Fixpoint startswith (s p : str) : bool :=
  match p, s with
  | [], _ => true
  | _ :: _, [] => false
  | y :: p', x :: s' => char_eqb x y && startswith s' p'
  end.

(** [s.endswith(p)] *)
Definition endswith (s p : str) : bool := startswith (rev s) (rev p).

(** [p in s] *)
Fixpoint contains (p s : str) : bool :=
  startswith s p ||
  match s with
  | [] => false
  | _ :: s' => contains p s'
  end.

(** [sep.join(l)] *)
Fixpoint join (sep : str) (l : list str) : str :=
  match l with
  | [] => []
  | x :: l' =>
      match l' with
      | [] => x
      | _ :: _ => x ++ sep ++ join sep l'
      end
  end.

(** One iteration of the loop over the lines of a file. *)
Definition read_line (output_lines : list str) (line : str) : list str :=
  if startswith (strip line) (py "```") then output_lines
  else if contains (py "classDiagram") line then output_lines
  else
    let new_line := replace_problematic_characters_in_signature line in
    output_lines ++ [rstrip new_line].

(** One iteration of the loop over the files of the directory. *)
Definition read_file (output_lines : list str) (file : str * list str) : list str :=
  let '(filename, lines) := file in
  if endswith filename (py ".md")
  then fold_left read_line lines output_lines ++ [[]]
  else output_lines.

Definition concatenate_mermaid_diagrams_with_replacements
    (directory : list (str * list str)) : result str :=
  let output_lines := [py "```mermaid"; py "classDiagram"] in
  let output_lines := fold_left read_file directory output_lines in
  output_lines <- ensure_classes_declared output_lines ;;
  let output_lines := output_lines ++ [py "```"] in
  Ok (join [LF] output_lines).


(** ** Vocabulary of the statements *)

(** [all_in k p]: every character of [p] is in the class [k]. *)
Definition all_in (k : cclass) (p : str) : Prop :=
  Forall (fun c => class_match k c = true) p.

(** [stops k s]: [s] does not begin with a character of [k]. *)
Definition stops (k : cclass) (s : str) : Prop :=
  match s with
  | [] => True
  | c :: _ => class_match k c = false
  end.

(** A list of lengths is a match of [l] on [s] when each atom takes a
    number of characters its quantifier allows, all of its class. *)
Fixpoint valid (l : list atom) (s : str) (ls : list nat) : Prop :=
  match l, ls with
  | [], [] => True
  | a :: l', n :: ls' =>
      q_min (a_quant a) <= n /\
      n <= q_max (a_quant a) (run_len (a_class a) s) /\
      valid l' (skipn n s) ls'
  | _, _ => False
  end.

(** The substrings of [s] of the given lengths, one after the other. *)
Fixpoint pieces (ls : list nat) (s : str) : list str :=
  match ls with
  | [] => []
  | n :: ls' => firstn n s :: pieces ls' (skipn n s)
  end.

(** [p] is a legal match of the atom [a]. *)
Definition piece_ok (a : atom) (p : str) : Prop :=
  all_in (a_class a) p /\
  match a_quant a with
  | Once => length p = 1
  | Star => True
  | Plus => 1 <= length p
  | Opt => length p <= 1
  end.

(** One legal piece per atom. *)
Fixpoint fits (l : list atom) (ps : list str) : Prop :=
  match l, ps with
  | [], [] => True
  | a :: l', p :: ps' => piece_ok a p /\ fits l' ps'
  | _, _ => False
  end.

(** The groups, read off the pieces. *)
Fixpoint groups_cat (p : list seg) (ps : list str) : list str :=
  match p with
  | [] => []
  | g :: p' =>
      let n := length (seg_atoms g) in
      let rest := groups_cat p' (skipn n ps) in
      match g with
      | Group _ => concat (firstn n ps) :: rest
      | Bare _ => rest
      end
  end.

(** The classes of the patterns: whitespace, identifier characters and
    the characters of a connector. *)
Definition ws : cclass := COne ISpace.
Definition wd : cclass := CSet [IWord; IChar (chr ".")].
Definition conn1 : cclass := CSet (cset ["<"; "|"; "-"]%char).
Definition conn2 : cclass := CSet (cset ["-"; ">"]%char).
Definition conn : cclass := CSet (cset ["<"; "|"; "-"; ">"]%char).

(** Below 128 the three classes are pairwise disjoint. *)
Definition ascii_table_ok (c : N) : bool :=
  let sp := ascii_isspace c in
  let w := ascii_isalnum c || N.eqb c 95 || (N.eqb c 46 || false) in
  let k := N.eqb c 60 || (N.eqb c 124 || (N.eqb c 45 || (N.eqb c 62 || false))) in
  negb (sp && w) && negb (sp && k) && negb (w && k).

(** No character of [s] is whitespace. *)
Definition no_space (s : str) : Prop := Forall (fun c => isspace c = false) s.

(** A pattern's shape: some split of a prefix of the line into pieces,
    one per atom. *)
Definition matches_shape (p : list seg) (line : str) : Prop :=
  exists ps rest, line = concat ps ++ rest /\ fits (atoms_of p) ps.

(** How the loop body classifies a line, with what it extracts. *)
Inductive line_class : Type :=
| Declaration (prefix name suffix : str)
| Relationship (lead src rel tgt : str)
| Passthrough.

(** The [leading_spaces] of the loop body. *)
Definition leading_spaces (line : str) : str :=
  match re_match leading_spaces_pattern line with
  | Some m' => group m' 1
  | None => []
  end.

Definition classify (line : str) : line_class :=
  match re_match class_declaration_pattern line with
  | Some m => Declaration (group m 1) (strip (group m 2)) (group m 3)
  | None =>
      match re_match relationship_pattern line with
      | Some m =>
          Relationship (leading_spaces line) (strip (group m 1))
                       (strip (group m 2)) (strip (group m 3))
      | None => Passthrough
      end
  end.

(** The line the loop appends for [line], and the identifiers it adds
    to each set. *)
Definition rewrite_line (line : str) : str :=
  match classify line with
  | Declaration p n s => p ++ replace_dots_with_underscores n ++ s
  | Relationship l s r t =>
      l ++ replace_dots_with_underscores s ++ py " " ++ r ++ py " " ++
      replace_dots_with_underscores t
  | Passthrough => line
  end.

Definition line_declares (line : str) : list str :=
  match classify line with
  | Declaration _ n _ => [replace_dots_with_underscores n]
  | _ => []
  end.

Definition line_references (line : str) : list str :=
  match classify line with
  | Relationship _ s _ t =>
      [replace_dots_with_underscores s; replace_dots_with_underscores t]
  | _ => []
  end.

(** [s.add(x)] for each [x] of [xs], in order. *)
Definition add_all (xs : list str) (s : list str) : list str :=
  fold_left (fun acc x => set_add x acc) xs s.

(** [d] is [c], or the underscore that replaces the dot [c]. *)
Definition dot_to_underscore (c d : char) : Prop :=
  d = c \/ (c = chr "." /\ d = chr "_").

(** The pieces of a declaration line. *)
Definition decl_pieces (w0 w1 n w2 b body : str) : list str :=
  [w0; py "c"; py "l"; py "a"; py "s"; py "s"; w1; n; w2; b; body].

(** The match without backtracking: every atom takes all it can. *)
Fixpoint greedy (l : list atom) (s : str) : option (list nat) :=
  match l with
  | [] => Some []
  | a :: l' =>
      let k := q_max (a_quant a) (run_len (a_class a) s) in
      if Nat.ltb k (q_min (a_quant a)) then None
      else match greedy l' (skipn k s) with
           | Some ls => Some (k :: ls)
           | None => None
           end
  end.

(** [declared_in out x]: some line of [out] is a declaration line whose
    identifier normalizes to [x]. *)
Definition declared_in (out : list str) (x : str) : Prop :=
  exists l p n s,
    In l out /\ classify l = Declaration p n s /\
    replace_dots_with_underscores n = x.

(** A normalized identifier of a relationship endpoint. *)
Definition ident (x : str) : Prop :=
  all_in wd x /\ 1 <= length x /\ ~ In (chr ".") x.

(** Python's [<=] on strings. *)
Definition str_le (a b : str) : Prop := str_leb a b = true.

(** [l.strip()] is not the closing fence. *)
Definition not_fence (l : str) : Prop := strip l <> fence.

(** The last line of [pre] is there and is not blank: a blank line is
    put before the synthesized block. *)
Definition separator (pre : list str) : list str :=
  match rev pre with
  | [] => []
  | x :: _ => if str_eqb (strip x) [] then [] else [[]]
  end.

(** [missing_classes] and [missing_class_declarations] of a document. *)
Definition missing_of (L : list str) : list str :=
  set_diff (referenced_classes (scan L)) (declared_classes (scan L)).

Definition block_of (L : list str) : list str :=
  map (fun class_name => py "class " ++ class_name) (sorted (missing_of L)).

(** [pattern.sub] with [char_map.get]: the two braces become their
    entity codes. *)
Definition escape_braces (s : str) : str :=
  flat_map (fun c =>
    if char_eqb c (chr "{") then py "&#123;"
    else if char_eqb c (chr "}") then py "&#125;"
    else [c]) s.

(** The visibility sigils of a method signature. *)
Definition sigil : cclass := CSet (cset ["-"; "+"]%char).

(** The two header lines of the combined document. *)
Definition header : list str := [py "```mermaid"; py "classDiagram"].

(** The lines of a file that are neither a fence nor a diagram header. *)
Definition kept (line : str) : bool :=
  negb (startswith (strip line) (py "```")) &&
  negb (contains (py "classDiagram") line).

(** What one file contributes: its kept lines, sanitized and stripped on
    the right, then a blank line; nothing when its name does not end in
    [.md]. *)
Definition file_part (file : str * list str) : list str :=
  if endswith (fst file) (py ".md")
  then map (fun line => rstrip (replace_problematic_characters_in_signature line))
           (filter kept (snd file)) ++ [[]]
  else [].


(** ** The matcher: what a match is, and which match is returned *)

Lemma char_eqb_eq (a b : char) : char_eqb a b = true <-> a = b.
Proof. apply N.eqb_eq. Qed.

Lemma str_eqb_eq (a b : str) : str_eqb a b = true <-> a = b.
Proof.
  revert b; induction a as [|x a IH]; intros [|y b]; simpl; split;
    try congruence; try reflexivity.
  - intros H. apply andb_true_iff in H as [H1 H2].
    apply char_eqb_eq in H1. apply IH in H2. congruence.
  - intros H. injection H as -> ->. apply andb_true_iff. split.
    + now apply char_eqb_eq.
    + now apply IH.
Qed.

Lemma str_eqb_refl (a : str) : str_eqb a a = true.
Proof. now apply str_eqb_eq. Qed.

Lemma str_eqb_neq (a b : str) : str_eqb a b = false <-> a <> b.
Proof.
  split.
  - intros H E. apply str_eqb_eq in E. congruence.
  - intros H. destruct (str_eqb a b) eqn:E; [|reflexivity].
    apply str_eqb_eq in E. contradiction.
Qed.

Lemma run_len_le k s : run_len k s <= length s.
Proof.
  induction s as [|c s IH]; simpl; [lia|].
  destruct (class_match k c); simpl; lia.
Qed.

Lemma run_len_app k p s : all_in k p -> run_len k (p ++ s) = length p + run_len k s.
Proof.
  induction 1 as [|c p Hc _ IH]; simpl; [reflexivity|].
  now rewrite Hc, IH.
Qed.

Lemma run_len_stops k s : stops k s -> run_len k s = 0.
Proof. destruct s as [|c s]; simpl; [reflexivity|]. now intros ->. Qed.

Lemma run_len_0_stops k s : run_len k s = 0 -> stops k s.
Proof.
  destruct s as [|c s]; simpl; [trivial|].
  destruct (class_match k c); [discriminate|reflexivity].
Qed.

Lemma run_len_exact k p s : all_in k p -> stops k s -> run_len k (p ++ s) = length p.
Proof. intros Hp Hs. rewrite run_len_app, run_len_stops by assumption. lia. Qed.

Lemma firstn_all_in k n s : n <= run_len k s -> all_in k (firstn n s).
Proof.
  revert s; induction n as [|n IH]; intros s H; simpl; [constructor|].
  destruct s as [|c s]; simpl in *; [constructor|].
  destruct (class_match k c) eqn:E; [|lia].
  constructor; [assumption|]. apply IH. lia.
Qed.

Lemma skipn_run_len_stops k s : stops k (skipn (run_len k s) s).
Proof.
  induction s as [|c s IH]; simpl; [trivial|].
  destruct (class_match k c) eqn:E; simpl; assumption.
Qed.

Lemma run_len_mono k s t : run_len k s <= run_len k (s ++ t).
Proof.
  induction s as [|c s IH]; simpl; [lia|].
  destruct (class_match k c); lia.
Qed.

Lemma run_len_firstn k n s : run_len k (firstn n s) = Nat.min n (run_len k s).
Proof.
  revert s; induction n as [|n IH]; intros [|c s]; simpl; try reflexivity.
  destruct (class_match k c); [|reflexivity]. now rewrite IH.
Qed.

Lemma q_max_mono q n m : n <= m -> q_max q n <= q_max q m.
Proof. intros H. unfold q_max. destruct q; lia. Qed.

Lemma q_max_le q n : q_max q n <= n.
Proof. unfold q_max. destruct q; lia. Qed.

Lemma try_down_eq cont s lo k :
  try_down cont s lo k =
  match cont (skipn k s) with
  | Some r => Some (k :: r)
  | None =>
      match k with
      | 0 => None
      | S k' => if Nat.ltb k' lo then None else try_down cont s lo k'
      end
  end.
Proof. destruct k; reflexivity. Qed.

Lemma try_down_spec cont s lo hi r :
  lo <= hi ->
  try_down cont s lo hi = Some r ->
  exists k ls, r = k :: ls /\ lo <= k <= hi /\ cont (skipn k s) = Some ls /\
               forall j, k < j -> j <= hi -> cont (skipn j s) = None.
Proof.
  revert r; induction hi as [|hi IH]; intros r Hlo H; rewrite try_down_eq in H.
  - destruct (cont (skipn 0 s)) as [r0|] eqn:E; [|discriminate].
    injection H as <-. exists 0, r0. repeat split; try assumption; try lia.
  - destruct (cont (skipn (S hi) s)) as [r0|] eqn:E.
    + injection H as <-. exists (S hi), r0. repeat split; try assumption; try lia.
    + destruct (Nat.ltb hi lo) eqn:L; [discriminate|].
      apply Nat.ltb_ge in L.
      destruct (IH r L H) as (k & ls & -> & Hk & Hc & Hn).
      exists k, ls. repeat split; try assumption; try lia.
      intros j Hj1 Hj2. destruct (Nat.eq_dec j (S hi)) as [->|Hne]; [assumption|].
      apply Hn; lia.
Qed.

Lemma try_down_none cont s lo hi :
  lo <= hi ->
  try_down cont s lo hi = None ->
  forall j, lo <= j -> j <= hi -> cont (skipn j s) = None.
Proof.
  induction hi as [|hi IH]; intros Hlo H j Hj1 Hj2; rewrite try_down_eq in H.
  - assert (j = 0) as -> by lia.
    destruct (cont (skipn 0 s)); [discriminate|reflexivity].
  - destruct (cont (skipn (S hi) s)) as [r0|] eqn:E; [discriminate|].
    destruct (Nat.eq_dec j (S hi)) as [->|Hne]; [assumption|].
    destruct (Nat.ltb hi lo) eqn:L.
    + apply Nat.ltb_lt in L. lia.
    + apply Nat.ltb_ge in L. apply IH; try assumption; lia.
Qed.

Lemma try_down_intro cont s lo hi k ls :
  lo <= k -> k <= hi ->
  cont (skipn k s) = Some ls ->
  (forall j, k < j -> j <= hi -> cont (skipn j s) = None) ->
  try_down cont s lo hi = Some (k :: ls).
Proof.
  induction hi as [|hi IH]; intros Hlo Hhi Hc Hn; rewrite try_down_eq.
  - assert (k = 0) as -> by lia. now rewrite Hc.
  - destruct (Nat.eq_dec k (S hi)) as [->|Hne].
    + now rewrite Hc.
    + rewrite (Hn (S hi)) by lia.
      destruct (Nat.ltb hi lo) eqn:L.
      * apply Nat.ltb_lt in L. lia.
      * apply IH; try assumption; try lia. intros j H1 H2. apply Hn; lia.
Qed.

(** What [match_atoms] returns on a non-empty pattern: the largest
    count of the first atom whose continuation matches. *)
Lemma match_atoms_cons_inv a l s r :
  match_atoms (a :: l) s = Some r ->
  exists k ls, r = k :: ls /\
    q_min (a_quant a) <= k /\
    k <= q_max (a_quant a) (run_len (a_class a) s) /\
    match_atoms l (skipn k s) = Some ls /\
    forall j, k < j -> j <= q_max (a_quant a) (run_len (a_class a) s) ->
              match_atoms l (skipn j s) = None.
Proof.
  simpl. destruct (Nat.ltb _ _) eqn:L; [discriminate|].
  apply Nat.ltb_ge in L. intros H.
  destruct (try_down_spec _ _ L H) as (k & ls & -> & Hk & Hc & Hn).
  exists k, ls. repeat split; try assumption; lia.
Qed.

Lemma match_atoms_cons_intro a l s k ls :
  q_min (a_quant a) <= k ->
  k <= q_max (a_quant a) (run_len (a_class a) s) ->
  match_atoms l (skipn k s) = Some ls ->
  (forall j, k < j -> j <= q_max (a_quant a) (run_len (a_class a) s) ->
             match_atoms l (skipn j s) = None) ->
  match_atoms (a :: l) s = Some (k :: ls).
Proof.
  intros Hlo Hhi Hc Hn. simpl.
  destruct (Nat.ltb _ _) eqn:L.
  - apply Nat.ltb_lt in L. lia.
  - now apply try_down_intro.
Qed.

(** The greedy count wins when its continuation matches. *)
Lemma match_atoms_cons_greedy a l s ls :
  q_min (a_quant a) <= q_max (a_quant a) (run_len (a_class a) s) ->
  match_atoms l (skipn (q_max (a_quant a) (run_len (a_class a) s)) s) = Some ls ->
  match_atoms (a :: l) s = Some (q_max (a_quant a) (run_len (a_class a) s) :: ls).
Proof.
  intros Hlo Hc. apply match_atoms_cons_intro; try assumption; try lia.
Qed.

Lemma match_atoms_sound l : forall s ls, match_atoms l s = Some ls -> valid l s ls.
Proof.
  induction l as [|a l IH]; intros s ls H.
  - simpl in H. injection H as <-. exact I.
  - destruct (match_atoms_cons_inv _ _ _ H) as (k & ls' & -> & Hlo & Hhi & Hc & _).
    simpl. repeat split; try assumption. now apply IH.
Qed.

Lemma match_atoms_complete l : forall s ls, valid l s ls -> exists ls', match_atoms l s = Some ls'.
Proof.
  induction l as [|a l IH]; intros s ls H.
  - exists []. reflexivity.
  - destruct ls as [|n ls]; [contradiction|]. destruct H as (Hlo & Hhi & Hv).
    simpl. destruct (Nat.ltb _ _) eqn:L.
    + apply Nat.ltb_lt in L. lia.
    + apply Nat.ltb_ge in L.
      destruct (try_down (match_atoms l) s (q_min (a_quant a))
                  (q_max (a_quant a) (run_len (a_class a) s))) as [r|] eqn:E.
      * now exists r.
      * destruct (IH _ _ Hv) as [ls' Hls'].
        rewrite (try_down_none _ _ L E Hlo Hhi) in Hls'. discriminate.
Qed.

Lemma valid_length l : forall s ls, valid l s ls -> length ls = length l.
Proof.
  induction l as [|a l IH]; intros s [|n ls] H; simpl in *; try contradiction; try reflexivity.
  f_equal. apply (IH (skipn n s)). tauto.
Qed.

Lemma valid_sum_le l : forall s ls, valid l s ls -> list_sum ls <= length s.
Proof.
  induction l as [|a l IH]; intros s [|n ls] H; simpl in *; try contradiction; try lia.
  destruct H as (_ & Hhi & Hv). apply IH in Hv. rewrite length_skipn in Hv.
  pose proof (q_max_le (a_quant a) (run_len (a_class a) s)).
  pose proof (run_len_le (a_class a) s). lia.
Qed.

(** A match of a prefix is a match of the whole. *)
Lemma valid_app l : forall s t ls, valid l s ls -> valid l (s ++ t) ls.
Proof.
  induction l as [|a l IH]; intros s t [|n ls] H; simpl in *; try contradiction; try exact I.
  destruct H as (Hlo & Hhi & Hv).
  assert (Hn : n <= length s).
  { pose proof (q_max_le (a_quant a) (run_len (a_class a) s)).
    pose proof (run_len_le (a_class a) s). lia. }
  repeat split; try assumption.
  - pose proof (q_max_mono (a_quant a) (run_len_mono (a_class a) s t)). lia.
  - rewrite skipn_app. replace (n - length s) with 0 by lia. simpl. now apply IH.
Qed.

Lemma match_atoms_none_prefix l s t :
  match_atoms l (s ++ t) = None -> match_atoms l s = None.
Proof.
  intros H. destruct (match_atoms l s) as [ls|] eqn:E; [|reflexivity].
  apply match_atoms_sound in E. apply (valid_app _ _ t) in E.
  apply match_atoms_complete in E as [ls' E]. congruence.
Qed.

(** Truncation: cutting the string at the end of the match leaves the
    match as it is. *)
Lemma match_atoms_firstn l : forall s ls,
  match_atoms l s = Some ls ->
  match_atoms l (firstn (list_sum ls) s) = Some ls.
Proof.
  induction l as [|a l IH]; intros s ls H.
  - simpl in H. injection H as <-. reflexivity.
  - destruct (match_atoms_cons_inv _ _ _ H) as (k & ls' & -> & Hlo & Hhi & Hc & Hn).
    pose proof (valid_sum_le _ _ _ (match_atoms_sound _ _ Hc)) as Hsum.
    rewrite length_skipn in Hsum.
    assert (Hk : k <= length s).
    { pose proof (q_max_le (a_quant a) (run_len (a_class a) s)).
      pose proof (run_len_le (a_class a) s). lia. }
    simpl list_sum.
    assert (Hskip : forall j, j <= k + list_sum ls' ->
              skipn j (firstn (k + list_sum ls') s) =
              firstn (k + list_sum ls' - j) (skipn j s)).
    { intros j Hj. rewrite skipn_firstn_comm. reflexivity. }
    apply match_atoms_cons_intro.
    + assumption.
    + rewrite run_len_firstn. unfold q_max, q_min in *. destruct (a_quant a); lia.
    + rewrite Hskip by lia. replace (k + list_sum ls' - k) with (list_sum ls') by lia.
      now apply IH.
    + intros j Hj1 Hj2.
      rewrite run_len_firstn in Hj2.
      assert (Hj3 : j <= k + list_sum ls').
      { pose proof (q_max_le (a_quant a) (Nat.min (k + list_sum ls') (run_len (a_class a) s))). lia. }
      rewrite Hskip by lia.
      apply match_atoms_none_prefix with (t := skipn (k + list_sum ls' - j) (skipn j s)).
      rewrite firstn_skipn. apply Hn; [assumption|].
      pose proof (q_max_mono (a_quant a)
                    (Nat.le_min_r (k + list_sum ls') (run_len (a_class a) s))). lia.
Qed.

(** Two strings that no class of the pattern tells apart, character by
    character, are matched alike. *)
Lemma run_len_congr (R : char -> char -> Prop) k :
  (forall c d, R c d -> class_match k c = class_match k d) ->
  forall s1 s2, Forall2 R s1 s2 -> run_len k s1 = run_len k s2.
Proof.
  intros HR s1 s2 H. induction H as [|c d s1 s2 Hcd _ IH]; simpl; [reflexivity|].
  rewrite (HR _ _ Hcd), IH. reflexivity.
Qed.

Lemma Forall2_skipn (R : char -> char -> Prop) n :
  forall s1 s2, Forall2 R s1 s2 -> Forall2 R (skipn n s1) (skipn n s2).
Proof.
  induction n as [|n IH]; intros s1 s2 H; simpl; [assumption|].
  destruct H; [constructor|]. now apply IH.
Qed.

Lemma try_down_ext cont1 cont2 s1 s2 lo hi :
  (forall k, k <= hi -> cont1 (skipn k s1) = cont2 (skipn k s2)) ->
  try_down cont1 s1 lo hi = try_down cont2 s2 lo hi.
Proof.
  induction hi as [|hi IH]; intros H.
  - rewrite (try_down_eq cont1 s1 lo 0), (try_down_eq cont2 s2 lo 0).
    now rewrite H by lia.
  - rewrite (try_down_eq cont1 s1 lo (S hi)), (try_down_eq cont2 s2 lo (S hi)).
    rewrite H by lia. destruct (cont2 (skipn (S hi) s2)); [reflexivity|].
    destruct (Nat.ltb hi lo); [reflexivity|]. apply IH. intros k Hk. apply H. lia.
Qed.

Lemma match_atoms_congr (R : char -> char -> Prop) l :
  (forall a, In a l -> forall c d, R c d ->
     class_match (a_class a) c = class_match (a_class a) d) ->
  forall s1 s2, Forall2 R s1 s2 -> match_atoms l s1 = match_atoms l s2.
Proof.
  induction l as [|a l IH]; intros HR s1 s2 H; simpl; [reflexivity|].
  rewrite (run_len_congr (a_class a) (HR a (or_introl eq_refl)) H).
  destruct (Nat.ltb _ _); [reflexivity|].
  apply try_down_ext. intros k _. apply IH.
  - intros a' Ha'. apply HR. now right.
  - now apply Forall2_skipn.
Qed.

(** ** Matches as lists of pieces *)

Lemma valid_fits l : forall s ls,
  valid l s ls ->
  fits l (pieces ls s) /\
  s = concat (pieces ls s) ++ skipn (list_sum ls) s /\
  map (@length char) (pieces ls s) = ls.
Proof.
  induction l as [|a l IH]; intros s [|n ls] H; simpl in H; try contradiction.
  - simpl. repeat split.
  - destruct H as (Hlo & Hhi & Hv).
    destruct (IH _ _ Hv) as (Hf & Hs & Hl).
    assert (Hn : n <= run_len (a_class a) s).
    { pose proof (q_max_le (a_quant a) (run_len (a_class a) s)). lia. }
    pose proof (run_len_le (a_class a) s) as Hr.
    simpl. repeat split.
    + now apply firstn_all_in.
    + rewrite length_firstn. unfold q_min, q_max in *. destruct (a_quant a); lia.
    + assumption.
    + rewrite <- app_assoc. rewrite <- (firstn_skipn n s) at 1. f_equal.
      rewrite Hs at 1. f_equal. rewrite skipn_skipn. f_equal. lia.
    + rewrite length_firstn. f_equal; [lia|assumption].
Qed.

Lemma all_in_run_len k p s : all_in k p -> length p <= run_len k (p ++ s).
Proof. intros H. rewrite run_len_app by assumption. lia. Qed.

Lemma skipn_length_app' (A : Type) (p t : list A) : skipn (length p) (p ++ t) = t.
Proof. rewrite skipn_app, skipn_all, Nat.sub_diag. reflexivity. Qed.

Lemma firstn_length_app' (A : Type) (p t : list A) : firstn (length p) (p ++ t) = p.
Proof. rewrite firstn_app, firstn_all, Nat.sub_diag. simpl. apply app_nil_r. Qed.

Lemma skipn_length_app (p t : str) : skipn (length p) (p ++ t) = t.
Proof. rewrite skipn_app, skipn_all, Nat.sub_diag. reflexivity. Qed.

Lemma firstn_length_app (p t : str) : firstn (length p) (p ++ t) = p.
Proof. rewrite firstn_app, firstn_all, Nat.sub_diag. simpl. apply app_nil_r. Qed.

Lemma fits_valid l : forall ps rest,
  fits l ps -> valid l (concat ps ++ rest) (map (@length char) ps).
Proof.
  induction l as [|a l IH]; intros [|p ps] rest H; simpl in H; try contradiction.
  - exact I.
  - destruct H as ((Hall & Hq) & Hf). simpl.
    rewrite <- app_assoc.
    pose proof (all_in_run_len (concat ps ++ rest) Hall) as Hr.
    repeat split.
    + unfold q_min. destruct (a_quant a); lia.
    + unfold q_max. destruct (a_quant a); lia.
    + rewrite skipn_length_app. now apply IH.
Qed.

Lemma pieces_lengths ps : forall rest,
  pieces (map (@length char) ps) (concat ps ++ rest) = ps.
Proof.
  induction ps as [|p ps IH]; intros rest; simpl; [reflexivity|].
  rewrite <- app_assoc, firstn_length_app, skipn_length_app, IH. reflexivity.
Qed.

Lemma list_sum_lengths (ps : list str) :
  list_sum (map (@length char) ps) = length (concat ps).
Proof.
  induction ps as [|p ps IH]; simpl; [reflexivity|].
  rewrite length_app, IH. reflexivity.
Qed.

Lemma firstn_concat_lengths n : forall (ps : list str) rest,
  firstn (list_sum (firstn n (map (@length char) ps))) (concat ps ++ rest) =
  concat (firstn n ps).
Proof.
  induction n as [|n IH]; intros [|p ps] rest; simpl; try reflexivity.
  rewrite <- app_assoc, firstn_app.
  rewrite firstn_all2 by lia.
  replace (length p + list_sum (firstn n (map (@length char) ps)) - length p)
    with (list_sum (firstn n (map (@length char) ps))) by lia.
  now rewrite IH.
Qed.

Lemma skipn_concat_lengths n : forall (ps : list str) rest,
  skipn (list_sum (firstn n (map (@length char) ps))) (concat ps ++ rest) =
  concat (skipn n ps) ++ rest.
Proof.
  induction n as [|n IH]; intros [|p ps] rest; simpl; try reflexivity.
  rewrite <- app_assoc, skipn_app.
  rewrite skipn_all2 by lia. simpl.
  replace (length p + list_sum (firstn n (map (@length char) ps)) - length p)
    with (list_sum (firstn n (map (@length char) ps))) by lia.
  now rewrite IH.
Qed.

Lemma groups_of_cat p : forall ps rest,
  groups_of p (map (@length char) ps) (concat ps ++ rest) = groups_cat p ps.
Proof.
  induction p as [|g p IH]; intros ps rest; [reflexivity|].
  cbn [groups_of groups_cat].
  rewrite firstn_concat_lengths, skipn_concat_lengths.
  replace (skipn (length (seg_atoms g)) (map (@length char) ps))
    with (map (@length char) (skipn (length (seg_atoms g)) ps))
    by (symmetry; apply skipn_map).
  rewrite IH. reflexivity.
Qed.

(** [re.match] in terms of pieces. *)
Lemma re_match_some p s m :
  re_match p s = Some m ->
  exists ps rest,
    s = concat ps ++ rest /\
    fits (atoms_of p) ps /\
    m = groups_cat p ps /\
    match_atoms (atoms_of p) s = Some (map (@length char) ps).
Proof.
  unfold re_match. destruct (match_atoms (atoms_of p) s) as [ls|] eqn:E; [|discriminate].
  intros H. injection H as <-.
  destruct (valid_fits _ _ _ (match_atoms_sound _ _ E)) as (Hf & Hs & Hl).
  exists (pieces ls s), (skipn (list_sum ls) s). repeat split; try assumption.
  - rewrite <- (groups_of_cat p (pieces ls s) (skipn (list_sum ls) s)).
    rewrite Hl, <- Hs. reflexivity.
  - now rewrite Hl.
Qed.

Lemma re_match_of_lengths p ps rest :
  match_atoms (atoms_of p) (concat ps ++ rest) = Some (map (@length char) ps) ->
  re_match p (concat ps ++ rest) = Some (groups_cat p ps).
Proof. intros H. unfold re_match. rewrite H. now rewrite groups_of_cat. Qed.

Lemma re_match_none_of_fits p s :
  (forall ps rest, s = concat ps ++ rest -> fits (atoms_of p) ps -> False) ->
  re_match p s = None.
Proof.
  intros H. destruct (re_match p s) as [m|] eqn:E; [|reflexivity].
  destruct (re_match_some _ _ E) as (ps & rest & Hs & Hf & _). now destruct (H ps rest).
Qed.

Lemma re_match_exists_of_fits p ps rest :
  fits (atoms_of p) ps -> exists m, re_match p (concat ps ++ rest) = Some m.
Proof.
  intros H. destruct (match_atoms_complete _ _ _ (fits_valid _ _ rest H)) as [ls E].
  unfold re_match. rewrite E. eauto.
Qed.

(** In a match, the last atom, when starred, is extended as far as it
    goes. *)
Lemma match_atoms_last_greedy l a : forall s ls,
  a_quant a = Star \/ a_quant a = Plus ->
  match_atoms (l ++ [a]) s = Some ls ->
  stops (a_class a) (skipn (list_sum ls) s).
Proof.
  induction l as [|b l IH]; intros s ls Hq H.
  - simpl app in H.
    destruct (match_atoms_cons_inv _ _ _ H) as (k & ls' & -> & Hlo & Hhi & Hc & Hn).
    simpl in Hc. injection Hc as <-. simpl. rewrite Nat.add_0_r.
    assert (k = run_len (a_class a) s) as ->.
    { assert (Hm : q_max (a_quant a) (run_len (a_class a) s) = run_len (a_class a) s)
        by (destruct Hq as [-> | ->]; reflexivity).
      rewrite Hm in *.
      destruct (Nat.eq_dec k (run_len (a_class a) s)) as [E|NE]; [assumption|].
      specialize (Hn (run_len (a_class a) s)). simpl in Hn.
      assert (Some (@nil nat) = None) by (apply Hn; lia). discriminate. }
    apply skipn_run_len_stops.
  - simpl app in H.
    destruct (match_atoms_cons_inv _ _ _ H) as (k & ls' & -> & Hlo & Hhi & Hc & Hn).
    cbn [list_sum fold_right]. rewrite Nat.add_comm, <- skipn_skipn. now apply IH.
Qed.

(** ** Character classes of the patterns *)

Lemma below_128_forall (P : N -> bool) :
  forallb P (map N.of_nat (seq 0 128)) = true ->
  forall c, (c < 128)%N -> P c = true.
Proof.
  intros H c Hc. rewrite forallb_forall in H. apply H.
  apply in_map_iff. exists (N.to_nat c). split.
  - apply N2Nat.id.
  - apply in_seq. lia.
Qed.

Lemma high_char_eqb c d : (128 <= c)%N -> (d < 128)%N -> char_eqb c d = false.
Proof. intros H1 H2. apply N.eqb_neq. lia. Qed.

Lemma classes_disjoint c :
  class_match ws c && class_match wd c = false /\
  class_match ws c && class_match conn c = false /\
  class_match wd c && class_match conn c = false.
Proof.
  destruct (N.ltb c 128) eqn:E.
  - apply N.ltb_lt in E.
    assert (H : ascii_table_ok c = true)
      by (revert c E; apply below_128_forall; vm_compute; reflexivity).
    apply N.ltb_lt in E.
    unfold ws, wd, conn, class_match, cset, item_match, isword, isalnum, isspace, char_eqb.
    rewrite E. simpl existsb.
    unfold ascii_table_ok in H. cbv zeta in H.
    change (chr "_") with 95%N. change (chr ".") with 46%N.
    change (chr "<") with 60%N. change (chr "|") with 124%N.
    change (chr "-") with 45%N. change (chr ">") with 62%N.
    destruct (ascii_isspace c), (ascii_isalnum c), (N.eqb c 95), (N.eqb c 46),
      (N.eqb c 60), (N.eqb c 124), (N.eqb c 45), (N.eqb c 62);
      simpl in *; try discriminate; repeat split; reflexivity.
  - pose proof E as E'. apply N.ltb_ge in E'.
    unfold ws, wd, conn, class_match, cset, item_match, isword, isalnum, isspace.
    rewrite E. simpl existsb.
    rewrite !(@high_char_eqb c) by (assumption || reflexivity).
    pose proof (uni_disjoint db c) as D.
    destruct (uni_isspace db c), (uni_isalnum db c); simpl in *;
      try discriminate; repeat split; reflexivity.
Qed.

Lemma ws_not_wd c : class_match ws c = true -> class_match wd c = false.
Proof. destruct (classes_disjoint c) as (H & _ & _). intros E. now rewrite E in H. Qed.

Lemma wd_not_ws c : class_match wd c = true -> class_match ws c = false.
Proof.
  destruct (classes_disjoint c) as (H & _ & _). intros E. rewrite E in H.
  now rewrite andb_true_r in H.
Qed.

Lemma ws_not_conn c : class_match ws c = true -> class_match conn c = false.
Proof. destruct (classes_disjoint c) as (_ & H & _). intros E. now rewrite E in H. Qed.

Lemma conn_not_ws c : class_match conn c = true -> class_match ws c = false.
Proof.
  destruct (classes_disjoint c) as (_ & H & _). intros E. rewrite E in H.
  now rewrite andb_true_r in H.
Qed.

Lemma wd_not_conn c : class_match wd c = true -> class_match conn c = false.
Proof. destruct (classes_disjoint c) as (_ & _ & H). intros E. now rewrite E in H. Qed.

Lemma conn_not_wd c : class_match conn c = true -> class_match wd c = false.
Proof.
  destruct (classes_disjoint c) as (_ & _ & H). intros E. rewrite E in H.
  now rewrite andb_true_r in H.
Qed.

(** ** strip *)

Lemma lstrip_no_space s : no_space s -> lstrip s = s.
Proof. destruct 1 as [|c s Hc _]; simpl; [reflexivity|]. now rewrite Hc. Qed.

Lemma strip_no_space s : no_space s -> strip s = s.
Proof.
  intros H. unfold strip, rstrip. rewrite (lstrip_no_space H).
  rewrite lstrip_no_space by (now apply Forall_rev). apply rev_involutive.
Qed.

Lemma all_in_no_space k s :
  (forall c, class_match k c = true -> class_match ws c = false) ->
  all_in k s -> no_space s.
Proof. intros Hk H. eapply Forall_impl; [|exact H]. intros c Hc. now apply Hk. Qed.

Lemma all_in_weaken k k' s :
  (forall c, class_match k c = true -> class_match k' c = true) ->
  all_in k s -> all_in k' s.
Proof. intros Hk H. eapply Forall_impl; [|exact H]. exact Hk. Qed.

Lemma strip_wd s : all_in wd s -> strip s = s.
Proof. intros H. apply strip_no_space. exact (all_in_no_space wd_not_ws H). Qed.

Lemma strip_conn s : all_in conn s -> strip s = s.
Proof. intros H. apply strip_no_space. exact (all_in_no_space conn_not_ws H). Qed.

(** ** replace_dots_with_underscores *)

Lemma replace_dots_length s : length (replace_dots_with_underscores s) = length s.
Proof. apply length_map. Qed.

Lemma replace_dots_no_dot s :
  ~ In (chr ".") s -> replace_dots_with_underscores s = s.
Proof.
  unfold replace_dots_with_underscores, str_replace.
  induction s as [|c s IH]; intros H; cbn [map]; [reflexivity|].
  destruct (char_eqb c (chr ".")) eqn:E.
  - apply char_eqb_eq in E. subst. exfalso. apply H. now left.
  - f_equal. apply IH. intros Hin. apply H. now right.
Qed.

Lemma replace_dots_free s : ~ In (chr ".") (replace_dots_with_underscores s).
Proof.
  unfold replace_dots_with_underscores, str_replace. intros H.
  apply in_map_iff in H as (c & Hc & _).
  destruct (char_eqb c (chr ".")) eqn:E; [discriminate|].
  apply N.eqb_neq in E. congruence.
Qed.

Lemma replace_dots_idem s :
  replace_dots_with_underscores (replace_dots_with_underscores s) =
  replace_dots_with_underscores s.
Proof. apply replace_dots_no_dot, replace_dots_free. Qed.

Lemma re_match_shape p line :
  matches_shape p line <-> exists m, re_match p line = Some m.
Proof.
  split.
  - intros (ps & rest & -> & Hf). now apply re_match_exists_of_fits.
  - intros (m & Hm). destruct (re_match_some _ _ Hm) as (ps & rest & Hs & Hf & _).
    now exists ps, rest.
Qed.

Lemma re_match_no_shape p line :
  ~ matches_shape p line <-> re_match p line = None.
Proof.
  rewrite re_match_shape. split.
  - intros H. destruct (re_match p line) as [m|]; [|reflexivity].
    exfalso. apply H. now exists m.
  - intros H (m & Hm). congruence.
Qed.

(** ** Runs of a class: where they end *)

Lemma app_inv_length (a b x y : str) :
  length a = length b -> a ++ x = b ++ y -> a = b /\ x = y.
Proof.
  revert b; induction a as [|c a IH]; intros [|d b] L E; simpl in *; try discriminate.
  - now split.
  - injection E as -> E. injection L as L. destruct (IH b L E) as [-> ->]. now split.
Qed.

Lemma run_unique k a x b y :
  all_in k a -> all_in k b -> stops k x -> stops k y ->
  a ++ x = b ++ y -> a = b /\ x = y.
Proof.
  intros Ha Hb Hx Hy E.
  assert (L : length a = length b).
  { rewrite <- (run_len_exact x Ha Hx), <- (run_len_exact y Hb Hy). now rewrite E. }
  now apply app_inv_length.
Qed.

Lemma stops_head k k' p t :
  (forall c, class_match k' c = true -> class_match k c = false) ->
  all_in k' p -> 1 <= length p -> stops k (p ++ t).
Proof.
  intros D Hp Hl. destruct Hp as [|c p Hc _]; simpl in *; [lia|]. now apply D.
Qed.

Lemma stops_skip k k' p t :
  (forall c, class_match k' c = true -> class_match k c = false) ->
  all_in k' p -> stops k t -> stops k (p ++ t).
Proof.
  intros D Hp Ht. destruct Hp as [|c p Hc _]; simpl in *; [assumption|]. now apply D.
Qed.

Lemma head_clash k k' p t p' t' :
  (forall c, class_match k' c = true -> class_match k c = false) ->
  all_in k p -> 1 <= length p -> all_in k' p' -> 1 <= length p' ->
  p ++ t = p' ++ t' -> False.
Proof.
  intros D Hp Hl Hp' Hl' E.
  destruct Hp as [|c p Hc _]; simpl in *; [lia|].
  destruct Hp' as [|c' p' Hc' _]; simpl in *; [lia|].
  injection E as -> _. apply D in Hc'. congruence.
Qed.

Arguments run_unique : clear implicits.
Arguments stops_head : clear implicits.
Arguments stops_skip : clear implicits.
Arguments head_clash : clear implicits.

Lemma all_in_app k p q : all_in k p -> all_in k q -> all_in k (p ++ q).
Proof. intros; now apply Forall_app. Qed.

Lemma once_lit a p : piece_ok (Atom (lit a) Once) p -> p = [chr a].
Proof.
  intros (Hall & Hl). simpl in Hl.
  destruct p as [|c [|d p]]; simpl in Hl; try discriminate.
  inversion_clear Hall as [|? ? Hc _]. simpl in Hc. apply char_eqb_eq in Hc. now subst.
Qed.

Lemma conn1_conn c : class_match conn1 c = true -> class_match conn c = true.
Proof.
  unfold conn1, conn, class_match, cset. cbn [map existsb item_match].
  repeat match goal with
         | |- context [char_eqb c ?x] => destruct (char_eqb c x)
         end; cbn; intros H; try reflexivity; discriminate.
Qed.

Lemma conn2_conn c : class_match conn2 c = true -> class_match conn c = true.
Proof.
  unfold conn2, conn, class_match, cset. cbn [map existsb item_match].
  repeat match goal with
         | |- context [char_eqb c ?x] => destruct (char_eqb c x)
         end; cbn; intros H; try reflexivity; discriminate.
Qed.

(** ** The three patterns, by shape *)

Lemma decl_shape_inv ps :
  fits (atoms_of class_declaration_pattern) ps ->
  exists w0 w1 nm w2 b body,
    ps = [w0; py "c"; py "l"; py "a"; py "s"; py "s"; w1; nm; w2; b; body] /\
    all_in ws w0 /\ all_in ws w1 /\ 1 <= length w1 /\
    all_in wd nm /\ 1 <= length nm /\
    all_in ws w2 /\ all_in (lit "{") b /\ length b <= 1 /\
    all_in (CNot (cset ["}"%char])) body.
Proof.
  intros H. cbn [atoms_of flat_map class_declaration_pattern seg_atoms app] in H.
  destruct ps as [|p0 ps]; [contradiction|]. destruct H as ((A0 & _) & H).
  destruct ps as [|p1 ps]; [contradiction|]. destruct H as (A1 & H).
  destruct ps as [|p2 ps]; [contradiction|]. destruct H as (A2 & H).
  destruct ps as [|p3 ps]; [contradiction|]. destruct H as (A3 & H).
  destruct ps as [|p4 ps]; [contradiction|]. destruct H as (A4 & H).
  destruct ps as [|p5 ps]; [contradiction|]. destruct H as (A5 & H).
  destruct ps as [|p6 ps]; [contradiction|]. destruct H as ((A6 & L6) & H).
  destruct ps as [|p7 ps]; [contradiction|]. destruct H as ((A7 & L7) & H).
  destruct ps as [|p8 ps]; [contradiction|]. destruct H as ((A8 & _) & H).
  destruct ps as [|p9 ps]; [contradiction|]. destruct H as ((A9 & L9) & H).
  destruct ps as [|p10 ps]; [contradiction|]. destruct H as ((A10 & _) & H).
  destruct ps; [|contradiction].
  apply once_lit in A1, A2, A3, A4, A5. subst.
  exists p0, p6, p7, p8, p9, p10. repeat split; assumption.
Qed.

Lemma rel_shape_inv ps :
  fits (atoms_of relationship_pattern) ps ->
  exists w0 src w1 c1 c2 w2 tgt,
    ps = [w0; src; w1; c1; c2; w2; tgt] /\
    all_in ws w0 /\ all_in wd src /\ 1 <= length src /\ all_in ws w1 /\
    all_in conn1 c1 /\ 1 <= length c1 /\ all_in conn2 c2 /\ 1 <= length c2 /\
    all_in ws w2 /\ all_in wd tgt /\ 1 <= length tgt.
Proof.
  intros H. cbn [atoms_of flat_map relationship_pattern seg_atoms app] in H.
  destruct ps as [|p0 ps]; [contradiction|]. destruct H as ((A0 & _) & H).
  destruct ps as [|p1 ps]; [contradiction|]. destruct H as ((A1 & L1) & H).
  destruct ps as [|p2 ps]; [contradiction|]. destruct H as ((A2 & _) & H).
  destruct ps as [|p3 ps]; [contradiction|]. destruct H as ((A3 & L3) & H).
  destruct ps as [|p4 ps]; [contradiction|]. destruct H as ((A4 & L4) & H).
  destruct ps as [|p5 ps]; [contradiction|]. destruct H as ((A5 & _) & H).
  destruct ps as [|p6 ps]; [contradiction|]. destruct H as ((A6 & L6) & H).
  destruct ps; [|contradiction].
  exists p0, p1, p2, p3, p4, p5, p6. repeat split; assumption.
Qed.

Lemma sig_shape_inv ps :
  fits (atoms_of method_signature_pattern) ps ->
  exists w0 sg nm params sfx,
    ps = [w0; sg; nm; py "("; params; py ")"; sfx] /\
    all_in ws w0 /\
    all_in (CSet (cset ["-"; "+"]%char)) sg /\ length sg = 1 /\
    all_in (COne IWord) nm /\ 1 <= length nm /\
    all_in (CNot (cset [")"%char])) params /\
    all_in CDot sfx.
Proof.
  intros H. cbn [atoms_of flat_map method_signature_pattern seg_atoms app] in H.
  destruct ps as [|p0 ps]; [contradiction|]. destruct H as ((A0 & _) & H).
  destruct ps as [|p1 ps]; [contradiction|]. destruct H as ((A1 & L1) & H).
  destruct ps as [|p2 ps]; [contradiction|]. destruct H as ((A2 & L2) & H).
  destruct ps as [|p3 ps]; [contradiction|]. destruct H as (A3 & H).
  destruct ps as [|p4 ps]; [contradiction|]. destruct H as ((A4 & _) & H).
  destruct ps as [|p5 ps]; [contradiction|]. destruct H as (A5 & H).
  destruct ps as [|p6 ps]; [contradiction|]. destruct H as ((A6 & _) & H).
  destruct ps; [|contradiction].
  apply once_lit in A3, A5. subst.
  exists p0, p1, p2, p4, p6. repeat split; assumption.
Qed.

Lemma leading_spaces_match line :
  re_match leading_spaces_pattern line = Some [firstn (run_len ws line) line].
Proof.
  unfold re_match.
  assert (E : match_atoms (atoms_of leading_spaces_pattern) line = Some [run_len ws line]).
  { apply (@match_atoms_cons_greedy (Atom ws Star) [] line []); cbn; [lia | reflexivity]. }
  rewrite E. cbn. now rewrite Nat.add_0_r.
Qed.

(** ** Classification of a line *)

Lemma scan_line_eq st line :
  scan_line st line =
  ScanState (add_all (line_declares line) (declared_classes st))
            (add_all (line_references line) (referenced_classes st))
            (processed_lines st ++ [rewrite_line line]).
Proof.
  unfold scan_line, rewrite_line, line_declares, line_references, classify, leading_spaces.
  destruct (re_match class_declaration_pattern line) as [m|]; [reflexivity|].
  destruct (re_match relationship_pattern line) as [m|]; reflexivity.
Qed.

Lemma replace_dots_wd n : all_in wd n -> all_in wd (replace_dots_with_underscores n).
Proof.
  intros H. unfold replace_dots_with_underscores, str_replace.
  apply Forall_map. eapply Forall_impl; [|exact H].
  intros c Hc. cbv beta. destruct (char_eqb c (chr ".")); [|assumption].
  vm_compute. reflexivity.
Qed.

Lemma dot_to_underscore_refl s : Forall2 dot_to_underscore s s.
Proof. induction s; constructor; [now left|assumption]. Qed.

Lemma dot_to_underscore_replace s :
  Forall2 dot_to_underscore s (replace_dots_with_underscores s).
Proof.
  unfold replace_dots_with_underscores, str_replace.
  induction s as [|c s IH]; cbn [map]; constructor; [|assumption].
  destruct (char_eqb c (chr ".")) eqn:E; [|now left].
  apply char_eqb_eq in E. now right.
Qed.

Lemma decl_atoms_dot_blind a :
  In a (atoms_of class_declaration_pattern) ->
  forall c d, dot_to_underscore c d ->
  class_match (a_class a) c = class_match (a_class a) d.
Proof.
  intros Ha c d [->|[-> ->]]; [reflexivity|].
  cbn in Ha. repeat (destruct Ha as [<-|Ha]; [vm_compute; reflexivity|]). contradiction.
Qed.

Lemma classify_decl_inv line p n s :
  classify line = Declaration p n s ->
  exists w0 w1 w2 b body rest,
    let ps := [w0; py "c"; py "l"; py "a"; py "s"; py "s"; w1; n; w2; b; body] in
    line = concat ps ++ rest /\
    p = w0 ++ py "class" ++ w1 /\ s = w2 ++ b ++ body /\
    all_in ws w0 /\ all_in ws w1 /\ 1 <= length w1 /\
    all_in wd n /\ 1 <= length n /\
    all_in ws w2 /\ all_in (lit "{") b /\ length b <= 1 /\
    all_in (CNot (cset ["}"%char])) body /\
    stops (CNot (cset ["}"%char])) rest /\
    match_atoms (atoms_of class_declaration_pattern) line = Some (map (@length char) ps).
Proof.
  unfold classify. destruct (re_match class_declaration_pattern line) as [m|] eqn:E.
  2: { destruct (re_match relationship_pattern line); discriminate. }
  destruct (re_match_some _ _ E) as (ps & rest & Hs & Hf & -> & Hm).
  destruct (decl_shape_inv _ Hf)
    as (w0 & w1 & nm & w2 & b & body & -> & A0 & A1 & L1 & A2 & L2 & A3 & A4 & L4 & A5).
  assert (Hst : stops (CNot (cset ["}"%char])) rest).
  { pose proof (@match_atoms_last_greedy
        (removelast (atoms_of class_declaration_pattern))
        (Atom (CNot (cset ["}"%char])) Star) line _ (or_introl eq_refl) Hm) as G.
    rewrite list_sum_lengths in G. rewrite Hs in G at 1.
    now rewrite skipn_length_app in G. }
  cbn [group pred nth groups_cat class_declaration_pattern seg_atoms length firstn skipn concat].
  rewrite !app_nil_r. rewrite (strip_wd A2).
  intros H. injection H as <- <- <-.
  exists w0, w1, w2, b, body, rest. cbn zeta.
  repeat split; assumption.
Qed.

Lemma classify_of_decl_lengths w0 w1 n w2 b body :
  match_atoms (atoms_of class_declaration_pattern)
    (concat (decl_pieces w0 w1 n w2 b body)) =
    Some (map (@length char) (decl_pieces w0 w1 n w2 b body)) ->
  all_in wd n ->
  classify ((w0 ++ py "class" ++ w1) ++ n ++ (w2 ++ b ++ body)) =
  Declaration (w0 ++ py "class" ++ w1) n (w2 ++ b ++ body).
Proof.
  intros Hm Hn.
  assert (E : (w0 ++ py "class" ++ w1) ++ n ++ (w2 ++ b ++ body) =
              concat (decl_pieces w0 w1 n w2 b body) ++ []).
  { cbn. rewrite <- !app_assoc. cbn. now rewrite !app_nil_r. }
  rewrite E. unfold classify.
  rewrite (@re_match_of_lengths class_declaration_pattern _ []).
  2: { now rewrite app_nil_r. }
  cbn [decl_pieces group pred nth groups_cat class_declaration_pattern seg_atoms
       length firstn skipn concat].
  rewrite !app_nil_r. rewrite (strip_wd Hn). reflexivity.
Qed.

(** A rewritten declaration line is a declaration line, of the same
    prefix and suffix and of the normalized name. *)
Lemma classify_decl_rewrite line p n s :
  classify line = Declaration p n s ->
  classify (p ++ replace_dots_with_underscores n ++ s) =
  Declaration p (replace_dots_with_underscores n) s.
Proof.
  intros H.
  destruct (classify_decl_inv _ H)
    as (w0 & w1 & w2 & b & body & rest & Hs & -> & -> & A0 & A1 & L1 & A2 & L2 &
        A3 & A4 & L4 & A5 & Hst & Hm).
  cbn zeta in Hs, Hm.
  apply classify_of_decl_lengths; [|now apply replace_dots_wd].
  set (n' := replace_dots_with_underscores n).
  fold (decl_pieces w0 w1 n w2 b body) in Hs, Hm.
  assert (Hl : map (@length char) (decl_pieces w0 w1 n' w2 b body) =
               map (@length char) (decl_pieces w0 w1 n w2 b body)).
  { cbn. unfold n'. now rewrite replace_dots_length. }
  assert (Hm' : match_atoms (atoms_of class_declaration_pattern)
                  (concat (decl_pieces w0 w1 n' w2 b body) ++ rest) =
                Some (map (@length char) (decl_pieces w0 w1 n' w2 b body))).
  { rewrite Hl, <- Hm, Hs. symmetry.
    apply (@match_atoms_congr dot_to_underscore _ decl_atoms_dot_blind).
    cbn [decl_pieces concat]. rewrite <- !app_assoc.
    repeat (apply Forall2_app; [first [apply dot_to_underscore_replace
                                      | apply dot_to_underscore_refl]|]).
    apply dot_to_underscore_refl. }
  apply match_atoms_firstn in Hm'.
  now rewrite list_sum_lengths, firstn_length_app in Hm'.
Qed.

Lemma greedy_match l : forall s ls, greedy l s = Some ls -> match_atoms l s = Some ls.
Proof.
  induction l as [|a l IH]; intros s ls H; [exact H|].
  cbn [greedy] in H. cbv zeta in H.
  destruct (Nat.ltb _ _) eqn:L; [discriminate|]. apply Nat.ltb_ge in L.
  destruct (greedy l _) as [ls'|] eqn:G; [|discriminate].
  injection H as <-. apply match_atoms_cons_greedy; [assumption|]. now apply IH.
Qed.

Lemma run_len_all k p : all_in k p -> run_len k p = length p.
Proof.
  intros H. rewrite <- (app_nil_r p) at 1. rewrite run_len_app by assumption.
  simpl. lia.
Qed.

(** A synthesized line [class X] is a declaration of [X]. *)
Lemma classify_class_line X :
  all_in wd X -> 1 <= length X ->
  classify (py "class " ++ X) = Declaration (py "class ") X [].
Proof.
  intros HX LX.
  pose proof (@classify_of_decl_lengths [] (py " ") X [] [] []) as C.
  cbn [app] in C. rewrite app_nil_r in C. apply C; [|assumption]. clear C.
  apply greedy_match.
  assert (R0 : run_len ws X = 0).
  { apply run_len_stops. destruct HX as [|c X Hc _]; [exact I|]. now apply wd_not_ws. }
  cbn [decl_pieces concat app py list_ascii_of_string map].
  rewrite !app_nil_r.
  cbn.
  change (COne ISpace) with ws. change (CSet [IWord; IChar 46%N]) with wd.
  rewrite R0. cbn [skipn]. rewrite (run_len_all HX), skipn_all.
  destruct (Nat.leb_spec (length X) 0) as [L|L]; [lia|]. reflexivity.
Qed.

Lemma all_in_space : all_in ws (py " ").
Proof. repeat constructor. Qed.

Lemma all_in_conn12 c1 c2 :
  all_in conn1 c1 -> all_in conn2 c2 -> all_in conn (c1 ++ c2).
Proof.
  intros H1 H2. apply all_in_app.
  - eapply Forall_impl; [|exact H1]. exact conn1_conn.
  - eapply Forall_impl; [|exact H2]. exact conn2_conn.
Qed.

Lemma classify_rel_inv line l s r t :
  classify line = Relationship l s r t ->
  exists w1 c1 c2 w2 rest,
    line = l ++ s ++ w1 ++ c1 ++ c2 ++ w2 ++ t ++ rest /\
    r = c1 ++ c2 /\
    re_match class_declaration_pattern line = None /\
    all_in ws l /\ all_in wd s /\ 1 <= length s /\ all_in ws w1 /\
    all_in conn1 c1 /\ 1 <= length c1 /\ all_in conn2 c2 /\ 1 <= length c2 /\
    all_in ws w2 /\ all_in wd t /\ 1 <= length t /\ stops wd rest /\
    re_match relationship_pattern line = Some [s; r; t].
Proof.
  unfold classify. destruct (re_match class_declaration_pattern line) as [m|] eqn:D;
    [discriminate|].
  destruct (re_match relationship_pattern line) as [m|] eqn:E; [|discriminate].
  destruct (re_match_some _ _ E) as (ps & rest & Hs & Hf & -> & Hm).
  destruct (rel_shape_inv _ Hf)
    as (w0 & src & w1 & c1 & c2 & w2 & tgt & -> &
        A0 & A1 & L1 & A2 & A3 & L3 & A4 & L4 & A5 & A6 & L6).
  assert (Hst : stops wd rest).
  { pose proof (@match_atoms_last_greedy
        (removelast (atoms_of relationship_pattern))
        (Atom wd Plus) line _ (or_intror eq_refl) Hm) as G.
    rewrite list_sum_lengths in G. rewrite Hs in G at 1.
    now rewrite skipn_length_app in G. }
  cbn [concat] in Hs. rewrite <- !app_assoc in Hs. cbn [app] in Hs.
  assert (Hl : leading_spaces line = w0).
  { unfold leading_spaces. rewrite leading_spaces_match. cbn [group pred nth].
    rewrite Hs. rewrite run_len_exact; [apply firstn_length_app|assumption|].
    exact (stops_head ws wd _ _ wd_not_ws A1 L1). }
  rewrite Hl.
  cbn [groups_cat relationship_pattern seg_atoms length firstn skipn concat] in E.
  rewrite !app_nil_r in E.
  cbn [group pred nth groups_cat relationship_pattern seg_atoms length firstn skipn concat].
  rewrite !app_nil_r.
  pose proof (all_in_conn12 A3 A4) as A34.
  rewrite (strip_wd A1), (strip_wd A6), (strip_conn A34).
  intros H. injection H as <- <- <- <-.
  exists w1, c1, c2, w2, rest. repeat split; assumption.
Qed.

(** A rewritten relationship line is a relationship line with the same
    leading whitespace and connector and the normalized endpoints. *)
Lemma classify_rel_rewrite line l s r t :
  classify line = Relationship l s r t ->
  classify (l ++ replace_dots_with_underscores s ++ py " " ++ r ++ py " " ++
            replace_dots_with_underscores t) =
  Relationship l (replace_dots_with_underscores s) r (replace_dots_with_underscores t).
Proof.
  intros H.
  destruct (classify_rel_inv _ H)
    as (w1 & c1 & c2 & w2 & rest & _ & -> & _ &
        A0 & A1 & L1 & _ & A3 & L3 & A4 & L4 & _ & A6 & L6 & _).
  set (ns := replace_dots_with_underscores s).
  set (nt := replace_dots_with_underscores t).
  assert (B1 : all_in wd ns) by now apply replace_dots_wd.
  assert (B6 : all_in wd nt) by now apply replace_dots_wd.
  assert (M1 : 1 <= length ns) by (unfold ns; now rewrite replace_dots_length).
  assert (M6 : 1 <= length nt) by (unfold nt; now rewrite replace_dots_length).
  pose proof (all_in_conn12 A3 A4) as A34.
  assert (L34 : 1 <= length (c1 ++ c2)) by (rewrite length_app; lia).
  set (nl := l ++ ns ++ py " " ++ (c1 ++ c2) ++ py " " ++ nt).
  (* not a declaration *)
  assert (D : re_match class_declaration_pattern nl = None).
  { apply re_match_none_of_fits. intros ps rest' Hs Hf.
    destruct (decl_shape_inv _ Hf)
      as (w0' & w1' & nm' & w2' & b' & body' & -> & A0' & A1' & L1' & A2' & L2' & _).
    cbn [concat] in Hs. rewrite <- !app_assoc in Hs. unfold nl in Hs.
    eapply (run_unique ws _ _ _ _ A0 A0') in Hs;
      [ | exact (stops_head ws wd _ _ wd_not_ws B1 M1) | reflexivity ].
    destruct Hs as [_ Hs].
    change (py "c" ++ py "l" ++ py "a" ++ py "s" ++ py "s" ++
            w1' ++ nm' ++ w2' ++ b' ++ body' ++ [] ++ rest')
      with (py "class" ++ w1' ++ nm' ++ w2' ++ b' ++ body' ++ [] ++ rest') in Hs.
    assert (C : all_in wd (py "class")) by (repeat constructor).
    eapply (run_unique wd _ _ _ _ B1 C) in Hs;
      [ | reflexivity | exact (stops_head wd ws _ _ ws_not_wd A1' L1') ].
    destruct Hs as [_ Hs].
    eapply (run_unique ws _ _ _ _ all_in_space A1') in Hs;
      [ | exact (stops_head ws conn _ _ conn_not_ws A34 L34)
        | exact (stops_head ws wd _ _ wd_not_ws A2' L2') ].
    destruct Hs as [_ Hs].
    exact (head_clash wd conn _ _ _ _ conn_not_wd A2' L2' A34 L34 (eq_sym Hs)). }
  (* a relationship *)
  assert (F : fits (atoms_of relationship_pattern) [l; ns; py " "; c1; c2; py " "; nt]).
  { cbn. repeat split; try assumption; try exact all_in_space. }
  destruct (re_match_exists_of_fits relationship_pattern _ [] F) as [m E].
  assert (Enl : concat [l; ns; py " "; c1; c2; py " "; nt] ++ [] = nl).
  { unfold nl. cbn [concat]. rewrite <- !app_assoc. now rewrite !app_nil_r. }
  rewrite Enl in E.
  destruct (re_match_some _ _ E) as (ps & rest' & Hs & Hf & -> & Hm).
  destruct (rel_shape_inv _ Hf)
    as (a0 & a1 & a2 & a3 & a4 & a5 & a6 & -> &
        E0 & E1 & K1 & E2 & E3 & K3 & E4 & K4 & E5 & E6 & K6).
  assert (Hst : stops wd rest').
  { pose proof (@match_atoms_last_greedy
        (removelast (atoms_of relationship_pattern))
        (Atom wd Plus) nl _ (or_intror eq_refl) Hm) as G.
    rewrite list_sum_lengths in G. rewrite Hs in G at 1.
    now rewrite skipn_length_app in G. }
  pose proof (all_in_conn12 E3 E4) as E34.
  assert (K34 : 1 <= length (a3 ++ a4)) by (rewrite length_app; lia).
  cbn [concat] in Hs. rewrite <- !app_assoc in Hs. cbn [app] in Hs. unfold nl in Hs.
  eapply (run_unique ws _ _ _ _ A0 E0) in Hs;
    [ | exact (stops_head ws wd _ _ wd_not_ws B1 M1)
      | exact (stops_head ws wd _ _ wd_not_ws E1 K1) ].
  destruct Hs as [<- Hs].
  rewrite (app_assoc a3 a4) in Hs.
  eapply (run_unique wd _ _ _ _ B1 E1) in Hs;
    [ | reflexivity
      | apply (stops_skip wd ws _ _ ws_not_wd E2);
        exact (stops_head wd conn _ _ conn_not_wd E34 K34) ].
  destruct Hs as [<- Hs].
  eapply (run_unique ws _ _ _ _ all_in_space E2) in Hs;
    [ | exact (stops_head ws conn _ _ conn_not_ws A34 L34)
      | exact (stops_head ws conn _ _ conn_not_ws E34 K34) ].
  destruct Hs as [<- Hs].
  eapply (run_unique conn _ _ _ _ A34 E34) in Hs;
    [ | reflexivity
      | apply (stops_skip conn ws _ _ ws_not_conn E5);
        exact (stops_head conn wd _ _ wd_not_conn E6 K6) ].
  destruct Hs as [E34' Hs].
  rewrite <- (app_nil_r nt) in Hs.
  eapply (run_unique ws _ _ _ _ all_in_space E5) in Hs;
    [ | exact (stops_head ws wd _ _ wd_not_ws B6 M6)
      | exact (stops_head ws wd _ _ wd_not_ws E6 K6) ].
  destruct Hs as [<- Hs].
  eapply (run_unique wd _ _ _ _ B6 E6) in Hs; [ | exact I | exact Hst ].
  destruct Hs as [<- <-].
  (* assemble *)
  assert (Hl : leading_spaces nl = l).
  { unfold leading_spaces. rewrite leading_spaces_match. cbn [group pred nth].
    unfold nl. rewrite run_len_exact; [apply firstn_length_app|assumption|].
    exact (stops_head ws wd _ _ wd_not_ws B1 M1). }
  fold nl. unfold classify. rewrite D, E, Hl.
  cbn [group pred nth groups_cat relationship_pattern seg_atoms length firstn skipn concat].
  rewrite !app_nil_r, <- E34'.
  now rewrite (strip_wd B1), (strip_wd B6), (strip_conn A34).
Qed.

(** ** Rewritten lines are fixed points of the loop body *)

Lemma ident_replace_dots s :
  all_in wd s -> 1 <= length s -> ident (replace_dots_with_underscores s).
Proof.
  intros A L. repeat split.
  - now apply replace_dots_wd.
  - now rewrite replace_dots_length.
  - apply replace_dots_free.
Qed.

Lemma line_references_ident line x : In x (line_references line) -> ident x.
Proof.
  unfold line_references. destruct (classify line) as [| l s r t |] eqn:C; try contradiction.
  destruct (classify_rel_inv _ C)
    as (w1 & c1 & c2 & w2 & rest & _ & _ & _ & _ & A1 & L1 & _ & _ & _ & _ & _ & _ & A6 & L6 & _).
  intros [<-|[<-|[]]]; now apply ident_replace_dots.
Qed.

Lemma rewrite_line_fixed line :
  rewrite_line (rewrite_line line) = rewrite_line line /\
  line_declares (rewrite_line line) = line_declares line /\
  line_references (rewrite_line line) = line_references line.
Proof.
  assert (E : rewrite_line line =
              match classify line with
              | Declaration p n s => p ++ replace_dots_with_underscores n ++ s
              | Relationship l s r t =>
                  l ++ replace_dots_with_underscores s ++ py " " ++ r ++ py " " ++
                  replace_dots_with_underscores t
              | Passthrough => line
              end) by reflexivity.
  destruct (classify line) as [p n s | l s r t |] eqn:C; rewrite E.
  - pose proof (classify_decl_rewrite _ C) as C'.
    unfold rewrite_line, line_declares, line_references. rewrite C, C'.
    now rewrite !replace_dots_idem.
  - pose proof (classify_rel_rewrite _ C) as C'.
    unfold rewrite_line, line_declares, line_references. rewrite C, C'.
    now rewrite !replace_dots_idem.
  - unfold rewrite_line, line_declares, line_references. now rewrite C.
Qed.

Lemma class_line_fixed X :
  ident X ->
  rewrite_line (py "class " ++ X) = py "class " ++ X /\
  line_declares (py "class " ++ X) = [X] /\
  line_references (py "class " ++ X) = [].
Proof.
  intros (A & L & ND).
  unfold rewrite_line, line_declares, line_references.
  rewrite (classify_class_line A L), (replace_dots_no_dot X ND).
  now rewrite app_nil_r.
Qed.

Lemma blank_line_fixed :
  rewrite_line [] = [] /\ line_declares [] = [] /\ line_references [] = [].
Proof. repeat split. Qed.

(** ** Sets *)

Lemma set_mem_in x s : set_mem x s = true <-> In x s.
Proof.
  unfold set_mem. rewrite existsb_exists. split.
  - intros (y & Hy & E). apply str_eqb_eq in E. now subst.
  - intros H. exists x. split; [assumption|apply str_eqb_refl].
Qed.

Lemma set_add_in x y s : In x (set_add y s) <-> x = y \/ In x s.
Proof.
  unfold set_add. destruct (set_mem y s) eqn:E.
  - apply set_mem_in in E. split; [now right|]. intros [->|H]; assumption.
  - rewrite in_app_iff. simpl. intuition.
Qed.

Lemma set_add_nodup y s : NoDup s -> NoDup (set_add y s).
Proof.
  intros H. unfold set_add. destruct (set_mem y s) eqn:E; [assumption|].
  apply NoDup_app; [assumption| repeat constructor; now intros [] |].
  intros x Hx [<-|[]]. apply set_mem_in in Hx. congruence.
Qed.

Lemma add_all_in xs : forall s x, In x (add_all xs s) <-> In x xs \/ In x s.
Proof.
  unfold add_all. induction xs as [|y xs IH]; intros s x; simpl.
  - tauto.
  - rewrite IH, set_add_in. intuition.
Qed.

Lemma add_all_nodup xs : forall s, NoDup s -> NoDup (add_all xs s).
Proof.
  unfold add_all. induction xs as [|y xs IH]; intros s H; simpl; [assumption|].
  apply IH. now apply set_add_nodup.
Qed.

Lemma set_diff_in x a b : In x (set_diff a b) <-> In x a /\ ~ In x b.
Proof.
  unfold set_diff. rewrite filter_In. split; intros [Ha Hb]; split; auto.
  - intros Hin. apply set_mem_in in Hin. rewrite Hin in Hb. discriminate.
  - destruct (set_mem x b) eqn:E; [|reflexivity]. apply set_mem_in in E. contradiction.
Qed.

Lemma set_diff_nodup a b : NoDup a -> NoDup (set_diff a b).
Proof. apply NoDup_filter. Qed.

Lemma set_diff_nil a b : (forall x, In x a -> In x b) -> set_diff a b = [].
Proof.
  intros H. destruct (set_diff a b) as [|x l] eqn:E; [reflexivity|].
  assert (Hx : In x (set_diff a b)) by (rewrite E; now left).
  apply set_diff_in in Hx as [Ha Hb]. now apply H in Ha.
Qed.

(** ** The scan *)

Lemma scan_from_processed L : forall st,
  processed_lines (fold_left scan_line L st) =
  processed_lines st ++ map rewrite_line L.
Proof.
  induction L as [|l L IH]; intros st; simpl.
  - now rewrite app_nil_r.
  - rewrite IH, scan_line_eq. simpl. now rewrite <- app_assoc.
Qed.

Lemma scan_from_declared L : forall st x,
  In x (declared_classes (fold_left scan_line L st)) <->
  In x (declared_classes st) \/ exists l, In l L /\ In x (line_declares l).
Proof.
  induction L as [|l L IH]; intros st x; simpl.
  - split; [now left|]. intros [H|(l & [] & _)]. assumption.
  - rewrite IH, scan_line_eq. simpl. rewrite add_all_in. split.
    + intros [[H|H]|(l' & Hl' & H)]; eauto 6.
    + intros [H|(l' & [<-|Hl'] & H)]; eauto 6.
Qed.

Lemma scan_from_referenced L : forall st x,
  In x (referenced_classes (fold_left scan_line L st)) <->
  In x (referenced_classes st) \/ exists l, In l L /\ In x (line_references l).
Proof.
  induction L as [|l L IH]; intros st x; simpl.
  - split; [now left|]. intros [H|(l & [] & _)]. assumption.
  - rewrite IH, scan_line_eq. simpl. rewrite add_all_in. split.
    + intros [[H|H]|(l' & Hl' & H)]; eauto 6.
    + intros [H|(l' & [<-|Hl'] & H)]; eauto 6.
Qed.

Lemma scan_from_referenced_nodup L : forall st,
  NoDup (referenced_classes st) ->
  NoDup (referenced_classes (fold_left scan_line L st)).
Proof.
  induction L as [|l L IH]; intros st H; simpl; [assumption|].
  apply IH. rewrite scan_line_eq. simpl. now apply add_all_nodup.
Qed.

Lemma scan_processed L : processed_lines (scan L) = map rewrite_line L.
Proof. unfold scan. now rewrite scan_from_processed. Qed.

Lemma scan_declared L x :
  In x (declared_classes (scan L)) <-> exists l, In l L /\ In x (line_declares l).
Proof. unfold scan. rewrite scan_from_declared. simpl. tauto. Qed.

Lemma scan_referenced L x :
  In x (referenced_classes (scan L)) <-> exists l, In l L /\ In x (line_references l).
Proof. unfold scan. rewrite scan_from_referenced. simpl. tauto. Qed.

Lemma scan_referenced_nodup L : NoDup (referenced_classes (scan L)).
Proof. unfold scan. apply scan_from_referenced_nodup. constructor. Qed.

Lemma scan_referenced_ident L x : In x (referenced_classes (scan L)) -> ident x.
Proof.
  intros H. apply scan_referenced in H as (l & _ & H). eapply line_references_ident, H.
Qed.

(** ** sorted *)

Lemma str_leb_total a : forall b, str_leb a b = false -> str_leb b a = true.
Proof.
  induction a as [|x a IH]; intros [|y b]; simpl; try easy.
  destruct (N.ltb_spec x y), (N.ltb_spec y x); try easy; try lia. apply IH.
Qed.

Lemma str_leb_trans a : forall b c, str_leb a b = true -> str_leb b c = true -> str_leb a c = true.
Proof.
  induction a as [|x a IH]; intros [|y b] [|z c]; simpl; try easy.
  destruct (N.ltb_spec x y), (N.ltb_spec y x), (N.ltb_spec y z), (N.ltb_spec z y),
    (N.ltb_spec x z), (N.ltb_spec z x); try easy; try lia. apply IH.
Qed.

Lemma str_leb_antisym a : forall b, str_leb a b = true -> str_leb b a = true -> a = b.
Proof.
  induction a as [|x a IH]; intros [|y b]; simpl; try easy.
  destruct (N.ltb_spec x y), (N.ltb_spec y x); try easy; try lia.
  intros H1 H2. f_equal; [lia|now apply IH].
Qed.

Lemma insert_sorted_in x y l : In x (insert_sorted y l) <-> x = y \/ In x l.
Proof.
  induction l as [|z l IH]; simpl.
  - intuition.
  - destruct (str_leb y z); simpl; rewrite ?IH; intuition.
Qed.

Lemma sorted_in x s : In x (sorted s) <-> In x s.
Proof.
  unfold sorted. induction s as [|y s IH]; simpl; [tauto|].
  rewrite insert_sorted_in, IH. intuition.
Qed.

Lemma insert_sorted_sorted y l :
  StronglySorted str_le l -> StronglySorted str_le (insert_sorted y l).
Proof.
  induction 1 as [|z l Hl IH Hz]; simpl.
  - repeat constructor.
  - destruct (str_leb y z) eqn:E.
    + constructor; [now constructor|]. constructor; [exact E|].
      eapply Forall_impl; [|exact Hz]. intros w Hw. exact (str_leb_trans _ _ _ E Hw).
    + constructor; [assumption|]. apply Forall_forall. intros w Hw.
      apply insert_sorted_in in Hw as [->|Hw].
      * now apply str_leb_total.
      * rewrite Forall_forall in Hz. now apply Hz.
Qed.

Lemma sorted_sorted s : StronglySorted str_le (sorted s).
Proof.
  unfold sorted. induction s as [|y s IH]; simpl; [constructor|].
  now apply insert_sorted_sorted.
Qed.

Lemma insert_sorted_nodup y l : ~ In y l -> NoDup l -> NoDup (insert_sorted y l).
Proof.
  induction l as [|z l IH]; intros Hy Hl; simpl.
  - repeat constructor. now intros [].
  - destruct (str_leb y z).
    + now constructor.
    + inversion_clear Hl as [|? ? Hz Hl']. constructor.
      * rewrite insert_sorted_in. intros [->|H]; [apply Hy; now left|contradiction].
      * apply IH; [|assumption]. intros H. apply Hy. now right.
Qed.

Lemma sorted_nodup s : NoDup s -> NoDup (sorted s).
Proof.
  unfold sorted. induction 1 as [|y s Hy Hs IH]; simpl; [constructor|].
  apply insert_sorted_nodup; [|assumption]. now rewrite (sorted_in y s).
Qed.

(** ** The closing fence *)

Lemma find_closing_spec P : forall n, n <= length P ->
  (exists i x, find_closing P n = Ok (Some i) /\ i < n /\
      nth_error P i = Some x /\ strip x = fence /\
      forall j y, i < j -> j < n -> nth_error P j = Some y -> not_fence y) \/
  (find_closing P n = Ok None /\
      forall j y, j < n -> nth_error P j = Some y -> not_fence y).
Proof.
  induction n as [|n IH]; intros Hn.
  - right. split; [reflexivity|]. intros j y Hj. lia.
  - cbn [find_closing]. unfold subscript.
    destruct (nth_error P n) as [x|] eqn:E.
    2: { apply nth_error_None in E. lia. }
    cbn [bind]. destruct (str_eqb (strip x) fence) eqn:F.
    + apply str_eqb_eq in F. left. exists n, x. repeat split; try assumption; try lia.
    + apply str_eqb_neq in F.
      destruct IH as [(i & x' & H1 & H2 & H3 & H4 & H5)|(H1 & H2)]; [lia| |].
      * left. exists i, x'. repeat split; try assumption; try lia.
        intros j y Hj1 Hj2 Hy. destruct (Nat.eq_dec j n) as [->|Hne].
        -- rewrite E in Hy. injection Hy as <-. exact F.
        -- apply (H5 j); [assumption|lia|assumption].
      * right. split; [assumption|].
        intros j y Hj Hy. destruct (Nat.eq_dec j n) as [->|Hne].
        -- rewrite E in Hy. injection Hy as <-. exact F.
        -- apply (H2 j); [lia|assumption].
Qed.

Lemma all_not_fence (P : list str) n :
  length P <= n ->
  (forall j y, j < n -> nth_error P j = Some y -> not_fence y) ->
  Forall not_fence P.
Proof.
  intros Hn H. apply Forall_forall. intros y Hy.
  apply In_nth_error in Hy as [j Hj].
  apply (H j); [|assumption]. pose proof (proj1 (nth_error_Some P j)). 
  assert (nth_error P j <> None) by congruence. intuition lia.
Qed.

Lemma ensure_classes_declared_cases L :
  let P := processed_lines (scan L) in
  (missing_of L = [] /\ ensure_classes_declared L = Ok P) \/
  (missing_of L <> [] /\
   ((exists pre f post,
       P = pre ++ f :: post /\ strip f = fence /\ Forall not_fence post /\
       ensure_classes_declared L = Ok (pre ++ separator pre ++ block_of L ++ f :: post)) \/
    (Forall not_fence P /\
     ensure_classes_declared L = Ok (P ++ [] :: block_of L)))).
Proof.
  intros P. unfold ensure_classes_declared. fold (missing_of L). fold P.
  destruct (missing_of L) as [|m0 ms] eqn:M; [left; now split|].
  right. split; [discriminate|].
  assert (B : block_of L = map (fun c => py "class " ++ c) (sorted (m0 :: ms)))
    by (unfold block_of; now rewrite M).
  rewrite <- B.
  destruct (@find_closing_spec P (length P) (le_n _))
    as [(i & x & H1 & H2 & H3 & H4 & H5)|(H1 & H2)]; rewrite H1; cbn [bind].
  - left.
    destruct (nth_error_split P i H3) as (pre & post & EP & Li).
    exists pre, x, post. split; [exact EP|]. split; [exact H4|]. split.
    { apply Forall_forall. intros y Hy. apply In_nth_error in Hy as [j Hj].
      apply (H5 (S (i + j))); [lia| |].
      - assert (nth_error post j <> None) by congruence.
        apply nth_error_Some in H. rewrite EP, length_app. simpl. lia.
      - rewrite EP, nth_error_app2 by lia.
        replace (S (i + j) - length pre) with (S j) by lia. exact Hj. }
    assert (F1 : firstn i P = pre).
    { rewrite EP, <- Li. apply firstn_length_app'. }
    assert (F2 : skipn i P = x :: post).
    { rewrite EP, <- Li. apply skipn_length_app'. }
    rewrite F1, F2.
    destruct i as [|i].
    + destruct pre; [|discriminate]. reflexivity.
    + cbn [Nat.ltb Nat.leb]. unfold subscript.
      replace (S i - 1) with i by lia.
      destruct (exists_last (l := pre)) as (pre' & y & Epre);
        [intros ->; discriminate|].
      assert (Ey : nth_error P i = Some y).
      { rewrite EP, Epre, <- app_assoc, nth_error_app2.
        - rewrite Epre, length_app in Li. simpl in Li.
          replace (i - length pre') with 0 by lia. reflexivity.
        - rewrite Epre, length_app in Li. simpl in Li. lia. }
      rewrite Ey. cbn [bind].
      unfold separator. rewrite Epre, rev_app_distr. cbn [rev app].
      destruct (str_eqb (strip y) []); reflexivity.
  - right. split; [exact (@all_not_fence P (length P) (le_n _) H2)|].
    rewrite length_app. cbn [length]. rewrite Nat.add_1_r.
    cbn [Nat.ltb Nat.leb]. unfold subscript.
    replace (S (length P) - 1) with (length P) by lia.
    rewrite nth_error_app2, Nat.sub_diag by lia. cbn [nth_error bind].
    replace (str_eqb (strip []) []) with true by reflexivity. cbn [negb].
    rewrite firstn_all2 by (rewrite length_app; simpl; lia).
    rewrite skipn_all2 by (rewrite length_app; simpl; lia).
    now rewrite app_nil_r, <- app_assoc.
Qed.

(** ** The shape of the result *)

Lemma separator_blank pre l : In l (separator pre) -> l = [].
Proof.
  unfold separator. destruct (rev pre) as [|x r]; [intros []|].
  destruct (str_eqb (strip x) []); [intros []|]. now intros [<-|[]].
Qed.

Lemma ensure_classes_declared_shape L :
  exists pre ins post,
    ensure_classes_declared L = Ok (pre ++ ins ++ post) /\
    pre ++ post = processed_lines (scan L) /\
    (forall l, In l ins ->
       l = [] \/ exists X, In X (missing_of L) /\ l = py "class " ++ X) /\
    (forall X, In X (missing_of L) -> In (py "class " ++ X) ins).
Proof.
  destruct (ensure_classes_declared_cases L)
    as [(M & E)|(M & [(pre & f & post & EP & F & NF & E)|(NF & E)])].
  - exists (processed_lines (scan L)), [], []. rewrite !app_nil_r.
    repeat split; try assumption.
    + intros l [].
    + rewrite M. intros X [].
  - exists pre, (separator pre ++ block_of L), (f :: post).
    rewrite <- app_assoc. repeat split; try assumption; [now symmetry| |].
    + intros l Hl. apply in_app_iff in Hl as [Hl|Hl].
      * left. eapply separator_blank, Hl.
      * right. unfold block_of in Hl. apply in_map_iff in Hl as (X & <- & HX).
        exists X. split; [now apply sorted_in|reflexivity].
    + intros X HX. apply in_app_iff. right. unfold block_of.
      apply in_map_iff. exists X. split; [reflexivity|now apply sorted_in].
  - exists (processed_lines (scan L)), ([] :: block_of L), [].
    rewrite !app_nil_r. repeat split; try assumption.
    + intros l [<-|Hl]; [now left|]. right.
      unfold block_of in Hl. apply in_map_iff in Hl as (X & <- & HX).
      exists X. split; [now apply sorted_in|reflexivity].
    + intros X HX. right. unfold block_of.
      apply in_map_iff. exists X. split; [reflexivity|now apply sorted_in].
Qed.

Lemma missing_ident L X : In X (missing_of L) -> ident X.
Proof.
  intros H. apply set_diff_in in H as [H _]. eapply scan_referenced_ident, H.
Qed.

(** Every line of the result is a fixed point of the loop body, the
    result declares what the input declared and what was missing, and
    it references what the input referenced. *)
Lemma result_lines L out :
  ensure_classes_declared L = Ok out ->
  map rewrite_line out = out /\
  (forall x, In x (declared_classes (scan L)) \/ In x (missing_of L) ->
     exists l, In l out /\ In x (line_declares l)) /\
  (forall x l, In l out -> In x (line_references l) ->
     In x (referenced_classes (scan L))).
Proof.
  intros E.
  destruct (ensure_classes_declared_shape L) as (pre & ins & post & E' & EP & I1 & I2).
  rewrite E in E'. injection E' as ->.
  assert (HP : forall l, In l (pre ++ post) -> exists l0, In l0 L /\ l = rewrite_line l0).
  { intros l Hl. rewrite EP, scan_processed in Hl.
    apply in_map_iff in Hl as (l0 & <- & Hl0). now exists l0. }
  assert (Hcase : forall l, In l (pre ++ ins ++ post) ->
            (exists l0, In l0 L /\ l = rewrite_line l0) \/
            l = [] \/ exists X, In X (missing_of L) /\ l = py "class " ++ X).
  { intros l Hl. rewrite !in_app_iff in Hl. destruct Hl as [Hl|[Hl|Hl]].
    - left. apply HP. apply in_app_iff. now left.
    - right. now apply I1.
    - left. apply HP. apply in_app_iff. now right. }
  repeat split.
  - rewrite <- (map_id (pre ++ ins ++ post)) at 2. apply map_ext_in.
    intros l Hl. destruct (Hcase l Hl) as [(l0 & _ & ->)|[->|(X & HX & ->)]].
    + apply rewrite_line_fixed.
    + reflexivity.
    + apply class_line_fixed. eapply missing_ident, HX.
  - intros x [Hx|Hx].
    + apply scan_declared in Hx as (l0 & Hl0 & Hx).
      exists (rewrite_line l0). split.
      * assert (Hin : In (rewrite_line l0) (pre ++ post)).
        { rewrite EP, scan_processed. now apply in_map. }
        rewrite !in_app_iff in *. tauto.
      * now rewrite (proj1 (proj2 (rewrite_line_fixed l0))).
    + exists (py "class " ++ x). split.
      * rewrite !in_app_iff. right. left. now apply I2.
      * rewrite (proj1 (proj2 (class_line_fixed (missing_ident _ _ Hx)))). now left.
  - intros x l Hl Hx. destruct (Hcase l Hl) as [(l0 & Hl0 & ->)|[->|(X & HX & ->)]].
    + rewrite (proj2 (proj2 (rewrite_line_fixed l0))) in Hx.
      apply scan_referenced. now exists l0.
    + destruct Hx.
    + rewrite (proj2 (proj2 (class_line_fixed (missing_ident _ _ HX)))) in Hx. destruct Hx.
Qed.

Lemma referenced_declared_or_missing L x :
  In x (referenced_classes (scan L)) ->
  In x (declared_classes (scan L)) \/ In x (missing_of L).
Proof.
  intros H. destruct (in_dec (list_eq_dec N.eq_dec) x (declared_classes (scan L))) as [D|D].
  - now left.
  - right. apply set_diff_in. now split.
Qed.

Lemma ensure_classes_declared_total L : exists out, ensure_classes_declared L = Ok out.
Proof. destruct (ensure_classes_declared_shape L) as (pre & ins & post & E & _). eauto. Qed.

Lemma result_closed L out :
  ensure_classes_declared L = Ok out ->
  forall x, In x (referenced_classes (scan out)) -> In x (declared_classes (scan out)).
Proof.
  intros E x Hx. destruct (result_lines _ E) as (_ & HD & HR).
  apply scan_referenced in Hx as (l & Hl & Hx).
  apply (HR x l Hl), referenced_declared_or_missing, HD in Hx as (l' & Hl' & Hx).
  apply scan_declared. now exists l'.
Qed.

Lemma separator_spec pre :
  (separator pre = [[]] /\ exists pre' y, pre = pre' ++ [y] /\ strip y <> []) \/
  (separator pre = [] /\
   (pre = [] \/ exists pre' y, pre = pre' ++ [y] /\ strip y = [])).
Proof.
  unfold separator. destruct (rev pre) as [|y r] eqn:E.
  - right. split; [reflexivity|]. left.
    apply (f_equal (@rev str)) in E. now rewrite rev_involutive in E.
  - assert (Hp : pre = rev r ++ [y]).
    { apply (f_equal (@rev str)) in E. now rewrite rev_involutive in E. }
    destruct (str_eqb (strip y) []) eqn:B.
    + apply str_eqb_eq in B. right. split; [reflexivity|]. right. now exists (rev r), y.
    + apply str_eqb_neq in B. left. split; [reflexivity|]. now exists (rev r), y.
Qed.

(** ** What is dropped from a rewritten line *)

Lemma pattern_sub_escape s :
  pattern_sub (fun g => dict_get char_map g g) s = escape_braces s.
Proof.
  unfold pattern_sub, escape_braces. apply flat_map_ext. intros c.
  cbn. destruct (char_eqb c 123%N) eqn:E1; cbn.
  - reflexivity.
  - destruct (char_eqb c 125%N) eqn:E2; reflexivity.
Qed.

Lemma stops_dot rest : stops CDot rest -> rest = [] \/ exists d, rest = LF :: d.
Proof.
  destruct rest as [|c d]; [now left|]. cbn. intros H. right. exists d.
  apply negb_false_iff, char_eqb_eq in H. now subst.
Qed.


Lemma all_in_dot_no_lf s : all_in CDot s -> ~ In LF s.
Proof.
  intros H Hin. unfold all_in in H. rewrite Forall_forall in H.
  apply H in Hin. discriminate.
Qed.

Lemma signature_match_inv line m :
  re_match method_signature_pattern line = Some m ->
  exists signature suffix dropped,
    line = signature ++ suffix ++ dropped /\
    m = [signature; suffix] /\
    ~ In LF suffix /\
    (dropped = [] \/ exists d, dropped = LF :: d).
Proof.
  intros E.
  destruct (re_match_some _ _ E) as (ps & rest & Hs & Hf & -> & Hm).
  destruct (sig_shape_inv _ Hf)
    as (w0 & sg & nm & params & sfx & -> & A0 & A1 & L1 & A2 & L2 & A3 & A4).
  assert (Hst : stops CDot rest).
  { pose proof (@match_atoms_last_greedy
        (removelast (atoms_of method_signature_pattern))
        (Atom CDot Star) line _ (or_introl eq_refl) Hm) as G.
    rewrite list_sum_lengths in G. rewrite Hs in G at 1.
    now rewrite skipn_length_app in G. }
  exists (w0 ++ sg ++ nm ++ py "(" ++ params ++ py ")"), sfx, rest.
  repeat split.
  - rewrite Hs. cbn [concat]. rewrite <- !app_assoc. reflexivity.
  - cbn [groups_cat method_signature_pattern seg_atoms length firstn skipn concat].
    rewrite !app_nil_r. reflexivity.
  - now apply all_in_dot_no_lf.
  - now apply stops_dot.
Qed.





(** ** More on the signature pattern *)

Lemma all_in_not_in k p c : class_match k c = false -> all_in k p -> ~ In c p.
Proof.
  intros Hc H Hin. unfold all_in in H. rewrite Forall_forall in H.
  apply H in Hin. congruence.
Qed.

Lemma lstrip_ws_app w s : all_in ws w -> lstrip (w ++ s) = lstrip s.
Proof.
  induction 1 as [|c w Hc _ IH]; [reflexivity|].
  cbn [app lstrip]. cbn in Hc. now rewrite Hc.
Qed.

Lemma lstrip_stops s : stops ws s -> lstrip s = s.
Proof.
  destruct s as [|c s]; [reflexivity|]. cbn. now intros ->.
Qed.

Lemma escape_braces_app a b :
  escape_braces (a ++ b) = escape_braces a ++ escape_braces b.
Proof. apply flat_map_app. Qed.

Lemma escape_braces_id s :
  ~ In (chr "{") s -> ~ In (chr "}") s -> escape_braces s = s.
Proof.
  induction s as [|c s IH]; intros H1 H2; [reflexivity|].
  cbn [escape_braces flat_map]. fold (escape_braces s).
  destruct (char_eqb c (chr "{")) eqn:E1.
  { apply char_eqb_eq in E1. subst. exfalso. apply H1. now left. }
  destruct (char_eqb c (chr "}")) eqn:E2.
  { apply char_eqb_eq in E2. subst. exfalso. apply H2. now left. }
  cbn [app]. f_equal. apply IH; intros Hin; [apply H1|apply H2]; now right.
Qed.

(** A character of the escaped text is a character of the text that is
    no brace, or a character of an entity code. *)
Lemma escape_braces_in c s :
  In c (escape_braces s) ->
  (In c s /\ c <> chr "{" /\ c <> chr "}") \/ In c (py "&#123;&#125;").
Proof.
  unfold escape_braces. intros H. apply in_flat_map in H as (d & Hd & H).
  destruct (char_eqb d (chr "{")) eqn:E1.
  { right. cbn in H |- *. tauto. }
  destruct (char_eqb d (chr "}")) eqn:E2.
  { right. cbn in H |- *. tauto. }
  destruct H as [<-|[]]. left. repeat split; try assumption.
  - intros ->. discriminate.
  - intros ->. discriminate.
Qed.

Lemma escape_braces_free s :
  ~ In (chr "{") (escape_braces s) /\ ~ In (chr "}") (escape_braces s).
Proof.
  split; intros H; apply escape_braces_in in H as [(_ & H1 & H2)|H];
    try congruence; cbn in H; repeat (destruct H as [H|H]; [discriminate|]);
    contradiction.
Qed.

Lemma escape_braces_idem s : escape_braces (escape_braces s) = escape_braces s.
Proof. destruct (escape_braces_free s). now apply escape_braces_id. Qed.

Lemma escape_braces_no_paren s :
  all_in (CNot (cset [")"%char])) s -> all_in (CNot (cset [")"%char])) (escape_braces s).
Proof.
  intros H. apply Forall_forall. intros c Hc.
  apply escape_braces_in in Hc as [(Hc & _)|Hc].
  - unfold all_in in H. rewrite Forall_forall in H. now apply H.
  - cbn in Hc. repeat (destruct Hc as [<-|Hc]; [reflexivity|]). contradiction.
Qed.

(** The pieces of a line of the method-signature shape. *)
Lemma signature_pieces line m :
  re_match method_signature_pattern line = Some m ->
  exists w0 c nm params sfx rest,
    line = w0 ++ [c] ++ nm ++ py "(" ++ params ++ py ")" ++ sfx ++ rest /\
    m = [w0 ++ [c] ++ nm ++ py "(" ++ params ++ py ")"; sfx] /\
    all_in ws w0 /\ class_match sigil c = true /\
    all_in (COne IWord) nm /\ 1 <= length nm /\
    all_in (CNot (cset [")"%char])) params /\
    all_in CDot sfx /\ stops CDot rest.
Proof.
  intros E.
  destruct (re_match_some _ _ E) as (ps & rest & Hs & Hf & -> & Hm).
  destruct (sig_shape_inv _ Hf)
    as (w0 & sg & nm & params & sfx & -> & A0 & A1 & L1 & A2 & L2 & A3 & A4).
  assert (Hst : stops CDot rest).
  { pose proof (@match_atoms_last_greedy
        (removelast (atoms_of method_signature_pattern))
        (Atom CDot Star) line _ (or_introl eq_refl) Hm) as G.
    rewrite list_sum_lengths in G. rewrite Hs in G at 1.
    now rewrite skipn_length_app in G. }
  destruct sg as [|c [|c' sg]]; try discriminate.
  inversion_clear A1 as [|? ? Hc _].
  exists w0, c, nm, params, sfx, rest. repeat split; try assumption.
  - rewrite Hs. cbn [concat]. rewrite <- !app_assoc. reflexivity.
  - cbn [groups_cat method_signature_pattern seg_atoms length firstn skipn concat].
    rewrite !app_nil_r. reflexivity.
Qed.

Lemma sigil_not_ws c : class_match sigil c = true -> class_match ws c = false.
Proof.
  cbn. rewrite orb_false_r. intros H. apply orb_true_iff in H as [H|H];
    apply char_eqb_eq in H; subst; reflexivity.
Qed.

(** A string built as the signature pattern reads is matched with
    exactly these two groups. *)
Lemma signature_rematch w0 c nm params sfx :
  all_in ws w0 -> class_match sigil c = true ->
  all_in (COne IWord) nm -> 1 <= length nm ->
  all_in (CNot (cset [")"%char])) params ->
  all_in CDot sfx ->
  re_match method_signature_pattern
    (w0 ++ [c] ++ nm ++ py "(" ++ params ++ py ")" ++ sfx) =
  Some [w0 ++ [c] ++ nm ++ py "(" ++ params ++ py ")"; sfx].
Proof.
  intros A0 Hc A2 L2 A3 A4.
  set (o := w0 ++ [c] ++ nm ++ py "(" ++ params ++ py ")" ++ sfx).
  assert (F : fits (atoms_of method_signature_pattern)
                [w0; [c]; nm; py "("; params; py ")"; sfx]).
  { cbn [atoms_of flat_map method_signature_pattern seg_atoms app fits].
    repeat split; try assumption; try (repeat constructor; assumption).
    all: repeat constructor. }
  destruct (re_match_exists_of_fits method_signature_pattern _ [] F) as [m E].
  assert (Eo : concat [w0; [c]; nm; py "("; params; py ")"; sfx] ++ [] = o).
  { unfold o. cbn [concat]. rewrite <- !app_assoc. now rewrite !app_nil_r. }
  rewrite Eo in E. rewrite E. f_equal.
  destruct (signature_pieces _ E)
    as (a0 & c' & a2 & a4 & a6 & rest & Hs & -> & E0 & Hc' & E2 & K2 & E4 & E6 & Hst).
  unfold o in Hs.
  eapply (run_unique ws _ _ _ _ A0 E0) in Hs;
    [ | cbn; now apply sigil_not_ws | cbn; now apply sigil_not_ws ].
  destruct Hs as [<- Hs]. cbn [app] in Hs. injection Hs as <- Hs.
  eapply (run_unique (COne IWord) _ _ _ _ A2 E2) in Hs; [ | reflexivity | reflexivity ].
  destruct Hs as [<- Hs]. cbn [app py list_ascii_of_string map] in Hs.
  injection Hs as Hs.
  eapply (run_unique (CNot (cset [")"%char])) _ _ _ _ A3 E4) in Hs;
    [ | reflexivity | reflexivity ].
  destruct Hs as [<- Hs]. cbn [app py list_ascii_of_string map] in Hs.
  injection Hs as Hs.
  rewrite <- (app_nil_r sfx) in Hs.
  eapply (run_unique CDot _ _ _ _ A4 E6) in Hs; [ | exact I | exact Hst ].
  destruct Hs as [<- _]. reflexivity.
Qed.


Lemma signature_escaped w0 c nm params :
  all_in ws w0 -> class_match sigil c = true -> all_in (COne IWord) nm ->
  escape_braces (w0 ++ [c] ++ nm ++ py "(" ++ params ++ py ")") =
  w0 ++ [c] ++ nm ++ py "(" ++ escape_braces params ++ py ")".
Proof.
  intros A0 Hc A2. rewrite !escape_braces_app.
  rewrite (escape_braces_id w0), (escape_braces_id [c]), (escape_braces_id nm).
  1: reflexivity.
  all: first [ apply (@all_in_not_in (COne IWord)); [reflexivity|assumption]
             | apply (@all_in_not_in ws); [reflexivity|assumption]
             | apply (@all_in_not_in sigil); [reflexivity|now repeat constructor] ].
Qed.

(** X1: sanitizing a line twice is sanitizing it once. *)
Theorem signature_sanitizer_idempotent (line : str) :
  replace_problematic_characters_in_signature
    (replace_problematic_characters_in_signature line) =
  replace_problematic_characters_in_signature line.
Proof.
  unfold replace_problematic_characters_in_signature at 2 3.
  destruct (re_match method_signature_pattern line) as [m|] eqn:E.
  2: { unfold replace_problematic_characters_in_signature. now rewrite E. }
  destruct (signature_pieces _ E)
    as (w0 & c & nm & params & sfx & rest & Hs & -> & A0 & Hc & A2 & L2 & A3 & A4 & _).
  cbn [group pred nth]. rewrite pattern_sub_escape.
  rewrite (@signature_escaped w0 c nm params A0 Hc A2).
  unfold replace_problematic_characters_in_signature.
  rewrite <- !app_assoc.
  rewrite (@signature_rematch w0 c nm (escape_braces params) sfx
             A0 Hc A2 L2 (@escape_braces_no_paren params A3) A4).
  cbn [group pred nth]. rewrite pattern_sub_escape.
  rewrite (@signature_escaped w0 c nm (escape_braces params) A0 Hc A2),
    escape_braces_idem.
  now rewrite <- !app_assoc.
Qed.


(** X3: a line without curly braces and without a line feed is returned
    as it is, whatever its shape. *)
Theorem line_without_brace_or_line_feed_unchanged (line : str) :
  ~ In (chr "{") line -> ~ In (chr "}") line -> ~ In LF line ->
  replace_problematic_characters_in_signature line = line.
Proof.
  intros H1 H2 H3. unfold replace_problematic_characters_in_signature.
  destruct (re_match method_signature_pattern line) as [m|] eqn:E; [|reflexivity].
  destruct (signature_match_inv _ E) as (sg & sfx & dr & Hs & -> & _ & D).
  cbn [group pred nth]. rewrite pattern_sub_escape.
  assert (dr = []) as ->.
  { destruct D as [->|(d & ->)]; [reflexivity|].
    exfalso. apply H3. rewrite Hs, !in_app_iff. right. right. now left. }
  rewrite app_nil_r in Hs. rewrite escape_braces_id; [now symmetry| |].
  - intros Hin. apply H1. rewrite Hs, in_app_iff. now left.
  - intros Hin. apply H2. rewrite Hs, in_app_iff. now left.
Qed.

(** X4: a line whose first character after the leading whitespace is
    neither [+] nor [-], a blank line included, is returned as it is. *)
Theorem line_without_sigil_unchanged (line : str) :
  stops sigil (lstrip line) ->
  replace_problematic_characters_in_signature line = line.
Proof.
  intros H. unfold replace_problematic_characters_in_signature.
  destruct (re_match method_signature_pattern line) as [m|] eqn:E; [|reflexivity].
  exfalso.
  destruct (signature_pieces _ E)
    as (w0 & c & nm & params & sfx & rest & Hs & _ & A0 & Hc & _).
  rewrite Hs, (@lstrip_ws_app w0 _ A0) in H. cbn [app lstrip] in H.
  pose proof (@sigil_not_ws c Hc) as Hn. cbn [class_match ws item_match] in Hn.
  rewrite Hn in H. cbn [stops] in H. congruence.
Qed.


(** ** More on the declaration pass *)

Lemma insert_sorted_length x l : length (insert_sorted x l) = S (length l).
Proof.
  induction l as [|y l IH]; [reflexivity|].
  cbn [insert_sorted]. destruct (str_leb x y); cbn [length]; [reflexivity|].
  now rewrite IH.
Qed.

Lemma sorted_length s : length (sorted s) = length s.
Proof.
  unfold sorted. induction s as [|x s IH]; [reflexivity|].
  cbn [fold_right length]. now rewrite insert_sorted_length, IH.
Qed.

Lemma separator_length pre : length (separator pre) <= 1.
Proof.
  unfold separator. destruct (rev pre) as [|x r]; [cbn; lia|].
  destruct (str_eqb (strip x) []); cbn; lia.
Qed.

Lemma block_of_length L : length (block_of L) = length (missing_of L).
Proof. unfold block_of. now rewrite length_map, sorted_length. Qed.

(** X5: the pass never removes a line: the result has one line per
    input line when nothing is missing, and otherwise one more line per
    missing identifier and at most one blank line. *)
Theorem result_length (output_lines : list str) :
  exists out,
    ensure_classes_declared output_lines = Ok out /\
    ((missing_of output_lines = [] /\ length out = length output_lines) \/
     (missing_of output_lines <> [] /\
      exists k, k <= 1 /\
        length out = length output_lines + length (missing_of output_lines) + k)).
Proof.
  assert (HP : length (processed_lines (scan output_lines)) = length output_lines).
  { rewrite scan_processed. apply length_map. }
  destruct (ensure_classes_declared_cases output_lines)
    as [(M & E)|(M & [(pre & f & post & EP & F & NF & E)|(NF & E)])];
    eexists; (split; [exact E|]).
  - left. now split.
  - right. split; [assumption|]. exists (length (separator pre)).
    split; [apply separator_length|].
    rewrite <- HP, EP, !length_app, block_of_length. cbn [length]. lia.
  - right. split; [assumption|]. exists 1. split; [lia|].
    rewrite length_app. cbn [length]. rewrite block_of_length, HP. lia.
Qed.

Lemma ident_word x : ident x -> x <> [] /\ Forall (fun c => isword c = true) x.
Proof.
  intros (A & L & ND). split.
  - intros ->. cbn in L. lia.
  - apply Forall_forall. intros c Hc.
    unfold all_in in A. rewrite Forall_forall in A. pose proof (A c Hc) as H.
    cbn in H. rewrite orb_false_r in H. apply orb_true_iff in H as [H|H]; [assumption|].
    apply char_eqb_eq in H. subst. contradiction.
Qed.

Lemma line_declares_ident line x : In x (line_declares line) -> ident x.
Proof.
  unfold line_declares. destruct (classify line) as [p n s| |] eqn:C; try contradiction.
  destruct (classify_decl_inv _ C)
    as (w0 & w1 & w2 & b & body & rest & _ & _ & _ & _ & _ & _ & A2 & L2 & _).
  intros [<-|[]]. now apply ident_replace_dots.
Qed.

(** X6: every identifier the scan records, declared or referenced, is
    a non-empty string of word characters: no dot, no whitespace. *)
Theorem recorded_identifiers_are_words (output_lines : list str) (x : str) :
  In x (declared_classes (scan output_lines)) \/
  In x (referenced_classes (scan output_lines)) ->
  x <> [] /\ Forall (fun c => isword c = true) x.
Proof.
  intros [H|H]; apply ident_word.
  - apply scan_declared in H as (l & _ & H). eapply line_declares_ident, H.
  - eapply scan_referenced_ident, H.
Qed.

(** X7: the line appended for a relationship line holds no dot. *)
Theorem relationship_line_has_no_dot (st : scan_state) (line : str) :
  ~ matches_shape class_declaration_pattern line ->
  matches_shape relationship_pattern line ->
  exists new_line,
    processed_lines (scan_line st line) = processed_lines st ++ [new_line] /\
    ~ In (chr ".") new_line.
Proof.
  intros HD HR. apply re_match_no_shape in HD. apply re_match_shape in HR as [m HR].
  destruct (classify line) as [p n s | l s r t |] eqn:C;
    unfold classify in C; rewrite HD, HR in C; try discriminate.
  assert (C' : classify line = Relationship l s r t).
  { unfold classify. now rewrite HD, HR. }
  clear C.
  destruct (classify_rel_inv _ C')
    as (w1 & c1 & c2 & w2 & rest & _ & -> & _ & A0 & _ & _ & _ & A3 & _ & A4 & _).
  eexists. split.
  - rewrite scan_line_eq. cbn [processed_lines]. unfold rewrite_line. rewrite C'.
    reflexivity.
  - rewrite !in_app_iff. intros [H|[H|[H|[H|[H|H]]]]].
    + exact (@all_in_not_in ws l (chr ".") eq_refl A0 H).
    + exact (replace_dots_free _ H).
    + cbn in H. destruct H as [H|[]]. discriminate.
    + apply in_or_app in H.
      exact (@all_in_not_in conn (c1 ++ c2) (chr ".") eq_refl (all_in_conn12 A3 A4) H).
    + cbn in H. destruct H as [H|[]]. discriminate.
    + exact (replace_dots_free _ H).
Qed.

(** X8: the loop body cannot tell a line from the line it appends for
    it: run on that line, from any state, it appends the same line and
    adds the same identifiers. *)
Theorem scan_line_on_rewritten_line (st : scan_state) (line : str) :
  exists new_line,
    processed_lines (scan_line st line) = processed_lines st ++ [new_line] /\
    scan_line st new_line = scan_line st line.
Proof.
  exists (rewrite_line line). split.
  - now rewrite scan_line_eq.
  - rewrite !scan_line_eq.
    destruct (rewrite_line_fixed line) as (-> & -> & ->). reflexivity.
Qed.

Lemma sorted_unique l : forall l',
  StronglySorted str_le l -> StronglySorted str_le l' ->
  NoDup l -> NoDup l' -> (forall x, In x l <-> In x l') -> l = l'.
Proof.
  induction l as [|a l IH]; intros [|a' l'] S S' N N' H.
  - reflexivity.
  - exfalso. apply (proj2 (H a')). now left.
  - exfalso. apply (proj1 (H a)). now left.
  - inversion_clear S as [|? ? Sl Fa]. inversion_clear S' as [|? ? Sl' Fa'].
    inversion_clear N as [|? ? Na Nl]. inversion_clear N' as [|? ? Na' Nl'].
    rewrite Forall_forall in Fa, Fa'.
    assert (a = a') as <-.
    { destruct (proj1 (H a) (or_introl eq_refl)) as [E|Ha]; [now symmetry|].
      destruct (proj2 (H a') (or_introl eq_refl)) as [E|Ha']; [assumption|].
      apply str_leb_antisym; [now apply Fa|now apply Fa']. }
    f_equal. apply IH; try assumption.
    intros x. split; intros Hx.
    + destruct (proj1 (H x) (or_intror Hx)) as [<-|Hx']; [contradiction|assumption].
    + destruct (proj2 (H x) (or_intror Hx)) as [<-|Hx']; [contradiction|assumption].
Qed.

(** X9: what is synthesized depends on which lines the document has,
    not on their order or repetition: a declaration after the
    relationship counts as one before it, and two documents with the same
    lines get the same block of declarations. *)
Theorem synthesized_block_order_independent (lines1 lines2 : list str) :
  (forall l, In l lines1 <-> In l lines2) ->
  (forall x, In x (missing_of lines1) <-> In x (missing_of lines2)) /\
  block_of lines1 = block_of lines2.
Proof.
  intros H.
  assert (HM : forall x, In x (missing_of lines1) <-> In x (missing_of lines2)).
  { intros x. unfold missing_of. rewrite !set_diff_in, !scan_referenced, !scan_declared.
    split; intros ((l & Hl & Hx) & N); (split; [exists l; split; [now apply H|exact Hx]|]);
      intros (l' & Hl' & Hx'); apply N; exists l'; (split; [now apply H|exact Hx']). }
  split; [exact HM|].
  unfold block_of. f_equal. apply sorted_unique.
  - apply sorted_sorted.
  - apply sorted_sorted.
  - apply sorted_nodup, set_diff_nodup, scan_referenced_nodup.
  - apply sorted_nodup, set_diff_nodup, scan_referenced_nodup.
  - intros x. rewrite !sorted_in. apply HM.
Qed.


(** ** strip, once more *)

Lemma lstrip_split s :
  exists w, all_in ws w /\ s = w ++ lstrip s /\ stops ws (lstrip s).
Proof.
  induction s as [|c s (w & Aw & Hs & St)].
  - exists []. repeat split. constructor.
  - cbn [lstrip]. destruct (isspace c) eqn:E.
    + exists (c :: w). repeat split; [now constructor| |assumption].
      cbn [app]. now f_equal.
    + exists []. repeat split; [constructor|exact E].
Qed.

Lemma lstrip_idem s : lstrip (lstrip s) = lstrip s.
Proof. destruct (lstrip_split s) as (w & _ & _ & St). now apply lstrip_stops. Qed.

Lemma lstrip_all_ws w : all_in ws w -> lstrip w = [].
Proof. intros H. rewrite <- (app_nil_r w). now rewrite lstrip_ws_app. Qed.

Lemma lstrip_app_keep a b : lstrip a <> [] -> lstrip (a ++ b) = lstrip a ++ b.
Proof.
  induction a as [|c a IH]; intros H; [contradiction|].
  cbn [app lstrip] in *. destruct (isspace c); [now apply IH|reflexivity].
Qed.

Lemma lstrip_snoc u c : isspace c = false -> exists u', lstrip (u ++ [c]) = u' ++ [c].
Proof.
  intros Hc. induction u as [|x u (u' & IH)].
  - exists []. cbn. now rewrite Hc.
  - cbn [app lstrip]. destruct (isspace x); [now exists u'|now exists (x :: u)].
Qed.

Lemma rstrip_head c t : isspace c = false -> exists t', rstrip (c :: t) = c :: t'.
Proof.
  intros Hc. unfold rstrip. cbn [rev].
  destruct (@lstrip_snoc (rev t) c Hc) as (u' & ->).
  exists (rev u'). now rewrite rev_app_distr.
Qed.

Lemma rstrip_idem s : rstrip (rstrip s) = rstrip s.
Proof. unfold rstrip. now rewrite rev_involutive, lstrip_idem. Qed.

Lemma rstrip_app_keep w x : rstrip x <> [] -> rstrip (w ++ x) = w ++ rstrip x.
Proof.
  unfold rstrip. intros H. rewrite rev_app_distr, lstrip_app_keep.
  - now rewrite rev_app_distr, rev_involutive.
  - intros E. apply H. now rewrite E.
Qed.

Lemma rstrip_all_ws w : all_in ws w -> rstrip w = [].
Proof.
  intros H. unfold rstrip. rewrite lstrip_all_ws; [reflexivity|]. now apply Forall_rev.
Qed.

(** Stripping on the right first does not change what [strip] gives. *)
Lemma strip_rstrip s : strip (rstrip s) = strip s.
Proof.
  destruct (lstrip_split s) as (w & Aw & Hs & St).
  unfold strip at 2. destruct (lstrip s) as [|c t] eqn:E.
  - rewrite app_nil_r in Hs. subst w. now rewrite (@rstrip_all_ws s Aw).
  - cbn [stops] in St. destruct (@rstrip_head c t St) as (t' & Ht).
    rewrite Hs, rstrip_app_keep by (rewrite Ht; discriminate).
    unfold strip. rewrite (@lstrip_ws_app w _ Aw), Ht.
    cbn [lstrip]. cbn [class_match ws item_match] in St. rewrite St.
    now rewrite <- Ht, rstrip_idem.
Qed.

Lemma strip_head s c t : lstrip s = c :: t -> exists t', strip s = c :: t'.
Proof.
  intros E. destruct (lstrip_split s) as (_ & _ & _ & St). rewrite E in St.
  unfold strip. rewrite E. now apply rstrip_head.
Qed.

(** A line whose first character after the leading whitespace is not a
    backtick does not strip to the fence. *)
Lemma head_not_fence s c t : lstrip s = c :: t -> c <> chr "`" -> not_fence s.
Proof.
  intros E Hc. destruct (@strip_head s c t E) as (t' & Hs).
  unfold not_fence. rewrite Hs. intros F. injection F as F _. contradiction.
Qed.

Lemma lstrip_ws_cons w c t :
  all_in ws w -> class_match ws c = false -> lstrip (w ++ c :: t) = c :: t.
Proof.
  intros Aw Hc. rewrite lstrip_ws_app by assumption.
  cbn [lstrip]. cbn in Hc. now rewrite Hc.
Qed.

Lemma rewrite_line_not_fence l : not_fence l -> not_fence (rewrite_line l).
Proof.
  intros H. unfold rewrite_line. destruct (classify l) as [p n s | w s r t |] eqn:C.
  - destruct (classify_decl_inv _ C)
      as (w0 & w1 & w2 & b & body & rest & _ & -> & _ & A0 & _).
    eapply (@head_not_fence _ (chr "c")); [|discriminate].
    rewrite <- !app_assoc. cbn [py list_ascii_of_string map app].
    now apply lstrip_ws_cons.
  - destruct (classify_rel_inv _ C)
      as (w1 & c1 & c2 & w2 & rest & _ & _ & _ & A0 & A1 & L1 & _).
    pose proof (@replace_dots_wd s A1) as B1.
    pose proof (replace_dots_length s) as BL.
    destruct (replace_dots_with_underscores s) as [|d ns]; [cbn in BL; lia|].
    inversion_clear B1 as [|? ? Hd _].
    eapply (@head_not_fence _ d).
    + cbn [app]. apply lstrip_ws_cons; [assumption|now apply wd_not_ws].
    + intros ->. discriminate.
  - exact H.
Qed.

(** ** The driver *)

Lemma read_lines_eq lines : forall acc,
  fold_left read_line lines acc =
  acc ++ map (fun line => rstrip (replace_problematic_characters_in_signature line))
             (filter kept lines).
Proof.
  induction lines as [|l lines IH]; intros acc; cbn [fold_left filter].
  - now rewrite app_nil_r.
  - rewrite IH. unfold read_line, kept.
    destruct (startswith (strip l) (py "```")); [reflexivity|].
    destruct (contains (py "classDiagram") l); [reflexivity|].
    cbn [negb andb map]. now rewrite <- app_assoc.
Qed.

Lemma read_files_eq directory : forall acc,
  fold_left read_file directory acc = acc ++ flat_map file_part directory.
Proof.
  induction directory as [|[name lines] d IH]; intros acc; cbn [fold_left flat_map].
  - now rewrite app_nil_r.
  - rewrite IH. unfold read_file, file_part. cbn [fst snd].
    destruct (endswith name (py ".md")); [|reflexivity].
    now rewrite read_lines_eq, <- !app_assoc.
Qed.

Lemma kept_line_not_fence line :
  kept line = true ->
  not_fence (rstrip (replace_problematic_characters_in_signature line)).
Proof.
  intros K. apply andb_true_iff in K as [K _]. apply negb_true_iff in K.
  unfold not_fence. rewrite strip_rstrip.
  unfold replace_problematic_characters_in_signature.
  destruct (re_match method_signature_pattern line) as [m|] eqn:E.
  - destruct (signature_pieces _ E)
      as (w0 & c & nm & params & sfx & rest & _ & -> & A0 & Hc & A2 & _).
    cbn [group pred nth]. rewrite pattern_sub_escape.
    rewrite (@signature_escaped w0 c nm params A0 Hc A2).
    apply (@head_not_fence _ c (nm ++ py "(" ++ escape_braces params ++ py ")" ++ sfx)).
    + rewrite <- !app_assoc. cbn [app]. apply lstrip_ws_cons; [assumption|].
      now apply sigil_not_ws.
    + intros ->. discriminate.
  - intros F. rewrite F in K. discriminate.
Qed.

Lemma body_not_fence directory :
  Forall not_fence (map rewrite_line (flat_map file_part directory)).
Proof.
  apply Forall_forall. intros l Hl. apply in_map_iff in Hl as (l0 & <- & Hl0).
  apply rewrite_line_not_fence.
  apply in_flat_map in Hl0 as ([name lines] & _ & Hl0).
  unfold file_part in Hl0. cbn [fst snd] in Hl0.
  destruct (endswith name (py ".md")); [|contradiction].
  apply in_app_iff in Hl0 as [Hl0|[<-|[]]].
  - apply in_map_iff in Hl0 as (line & <- & Hline).
    apply filter_In in Hline as [_ K]. now apply kept_line_not_fence.
  - intros F. discriminate.
Qed.

Lemma header_rewritten : map rewrite_line header = header.
Proof. reflexivity. Qed.

Lemma header_not_fence : Forall not_fence header.
Proof. repeat constructor; intros F; discriminate. Qed.


(** X10: input and output apart, the driver never raises; the text it
    writes is the two header
    lines, then for each file whose name ends in [.md], in directory
    order, its kept lines (sanitized, stripped on the right, then
    rewritten by the declaration pass) and a blank line, then, when
    identifiers are missing, a blank line and the synthesized
    declarations, then the closing fence, joined by line feeds: inside
    the driver the missing declarations always go to the end. *)
Theorem driver_output (directory : list (str * list str)) :
  let body := flat_map file_part directory in
  let tail :=
    match missing_of (header ++ body) with
    | [] => []
    | _ :: _ => [] :: block_of (header ++ body)
    end in
  concatenate_mermaid_diagrams_with_replacements directory =
  Ok (join [LF] (header ++ map rewrite_line body ++ tail ++ [py "```"])).
Proof.
  intros body tail.
  unfold concatenate_mermaid_diagrams_with_replacements.
  rewrite read_files_eq. fold header. fold body.
  assert (P : processed_lines (scan (header ++ body)) =
              header ++ map rewrite_line body).
  { now rewrite scan_processed, map_app, header_rewritten. }
  assert (NF : Forall not_fence (processed_lines (scan (header ++ body)))).
  { rewrite P. apply Forall_app. split; [apply header_not_fence|apply body_not_fence]. }
  destruct (ensure_classes_declared_cases (header ++ body))
    as [(M & E)|(M & [(pre & f & post & EP & F & _ & _)|(_ & E)])].
  - rewrite E. cbn [bind]. unfold tail. rewrite M, P. cbn [app].
    now rewrite <- !app_assoc.
  - exfalso. rewrite EP in NF. apply Forall_app in NF as [_ NF].
    inversion_clear NF as [|? ? Hf _]. now apply Hf.
  - rewrite E. cbn [bind]. unfold tail.
    destruct (missing_of (header ++ body)) as [|m0 ms] eqn:M'; [contradiction|].
    rewrite P. now rewrite <- !app_assoc.
Qed.



Lemma join_snoc sep l : forall x,
  join sep (l ++ [x]) = concat (map (fun y => y ++ sep) l) ++ x.
Proof.
  induction l as [|y l IH]; intros x; [reflexivity|].
  cbn [app join map concat]. rewrite IH.
  destruct (l ++ [x]) eqn:E; [now destruct l|].
  now rewrite <- !app_assoc.
Qed.

(** X14: the text the driver writes begins with the two header lines,
    each ended by a line feed, and ends with the closing fence without a
    line feed after it; when no file name ends in [.md], an empty
    directory included, there is nothing in between. *)
Theorem driver_text_framed (directory : list (str * list str)) :
  exists middle,
    concatenate_mermaid_diagrams_with_replacements directory =
      Ok (py "```mermaid" ++ [LF] ++ py "classDiagram" ++ [LF] ++ middle ++ py "```") /\
    ((forall file, In file directory -> endswith (fst file) (py ".md") = false) ->
     middle = []).
Proof.
  pose proof (driver_output directory) as E. cbv zeta in E.
  set (body := flat_map file_part directory) in *.
  set (tail := match missing_of (header ++ body) with
               | [] => []
               | _ :: _ => [] :: block_of (header ++ body)
               end) in *.
  exists (concat (map (fun y => y ++ [LF]) (map rewrite_line body ++ tail))).
  split.
  - rewrite E. f_equal.
    rewrite (app_assoc (map rewrite_line body)), app_assoc, join_snoc.
    rewrite map_app, concat_app. unfold header. cbn [map concat].
    now rewrite <- !app_assoc.
  - intros H.
    assert (B : body = []).
    { unfold body. clear -H. induction directory as [|file d IH]; [reflexivity|].
      cbn [flat_map]. rewrite IH by (intros f Hf; apply H; now right).
      unfold file_part. rewrite (H file (or_introl eq_refl)). reflexivity. }
    unfold tail. rewrite B. reflexivity.
Qed.


End Pipeline.

Section Claims.

Variable db : unicode_db.

(** C6: [replace_dots_with_underscores] turns each dot into an
    underscore and leaves every other character, at its position, as it
    is; an identifier without dots is returned unchanged, so that
    normalizing twice is normalizing once. *)
Theorem replace_dots_with_underscores_spec (class_name : str) :
  length (replace_dots_with_underscores class_name) = length class_name /\
  (forall i c, nth_error class_name i = Some c ->
     nth_error (replace_dots_with_underscores class_name) i =
     Some (if char_eqb c (chr ".") then chr "_" else c)) /\
  (~ In (chr ".") class_name -> replace_dots_with_underscores class_name = class_name) /\
  replace_dots_with_underscores (replace_dots_with_underscores class_name) =
  replace_dots_with_underscores class_name.
Proof.
  repeat split.
  - apply replace_dots_length.
  - intros i c H. unfold replace_dots_with_underscores, str_replace.
    rewrite nth_error_map, H. reflexivity.
  - apply replace_dots_no_dot.
  - apply replace_dots_idem.
Qed.

(** C5: a line that does not have the method-signature shape is
    returned as it is, character for character; [class MyClass {] is
    such a line. *)
Theorem signature_unmatched_unchanged :
  (forall line, ~ matches_shape db method_signature_pattern line ->
     replace_problematic_characters_in_signature db line = line) /\
  ~ matches_shape db method_signature_pattern (py "class MyClass {") /\
  replace_problematic_characters_in_signature db (py "class MyClass {") =
  py "class MyClass {".
Proof.
  assert (H : forall line, ~ matches_shape db method_signature_pattern line ->
     replace_problematic_characters_in_signature db line = line).
  { intros line Hn. apply re_match_no_shape in Hn.
    unfold replace_problematic_characters_in_signature. now rewrite Hn. }
  assert (N : ~ matches_shape db method_signature_pattern (py "class MyClass {")).
  { apply re_match_no_shape. vm_compute. reflexivity. }
  repeat split; auto.
Qed.

(** C1: after [ensure_classes_declared], both normalized endpoints of
    every relationship line of the input, that is every member of the
    referenced set, have a declaration line in the output, and the
    output's own referenced set is inside its declared set. *)
Theorem referenced_classes_are_declared (output_lines : list str) :
  exists out,
    ensure_classes_declared db output_lines = Ok out /\
    (forall line lead src rel tgt,
       In line output_lines ->
       classify db line = Relationship lead src rel tgt ->
       declared_in db out (replace_dots_with_underscores src) /\
       declared_in db out (replace_dots_with_underscores tgt)) /\
    (forall x, In x (referenced_classes (scan db output_lines)) ->
       declared_in db out x) /\
    (forall x, In x (referenced_classes (scan db out)) ->
       In x (declared_classes (scan db out))).
Proof.
  destruct (ensure_classes_declared_total db output_lines) as [out E].
  exists out. split; [exact E|].
  assert (H : forall x, In x (referenced_classes (scan db output_lines)) ->
                        declared_in db out x).
  { intros x Hx. destruct (result_lines _ _ E) as (_ & HD & _).
    apply (@referenced_declared_or_missing db output_lines) in Hx.
    apply HD in Hx as (l & Hl & Hx).
    unfold line_declares in Hx.
    destruct (classify db l) as [p n s| |] eqn:C; try contradiction.
    destruct Hx as [<-|[]]. now exists l, p, n, s. }
  split; [|split].
  - intros line lead src rel tgt Hin C.
    split; apply H; apply scan_referenced; exists line;
      (split; [exact Hin|]); unfold line_references; rewrite C;
      [now left | right; now left].
  - exact H.
  - exact (result_closed db output_lines E).
Qed.

(** C2: a second pass of [ensure_classes_declared] over the result of
    the first returns that result unchanged. *)
Theorem ensure_classes_declared_idempotent (output_lines : list str) :
  exists out,
    ensure_classes_declared db output_lines = Ok out /\
    ensure_classes_declared db out = Ok out.
Proof.
  destruct (ensure_classes_declared_total db output_lines) as [out E].
  exists out. split; [exact E|].
  destruct (result_lines _ _ E) as (Hfix & _).
  assert (M : missing_of db out = []).
  { apply set_diff_nil. exact (result_closed db output_lines E). }
  destruct (ensure_classes_declared_cases db out) as [(_ & E2)|(M2 & _)].
  - now rewrite E2, scan_processed, Hfix.
  - contradiction.
Qed.

(** C7: a relationship line is rewritten as its leading whitespace, the
    normalized source, one space, the connector as matched, one space
    and the normalized target, whatever the spacing was; both
    normalized endpoints are added to the referenced set, and the
    declared set is left alone. *)
Theorem relationship_line_rewritten (line : str) :
  ~ matches_shape db class_declaration_pattern line ->
  matches_shape db relationship_pattern line ->
  exists lead src w1 rel w2 tgt rest,
    line = lead ++ src ++ w1 ++ rel ++ w2 ++ tgt ++ rest /\
    all_in db ws lead /\ all_in db ws w1 /\ all_in db ws w2 /\
    all_in db wd src /\ src <> [] /\ all_in db wd tgt /\ tgt <> [] /\
    all_in db conn rel /\
    re_match db relationship_pattern line = Some [src; rel; tgt] /\
    forall st,
      scan_line db st line =
      ScanState (declared_classes st)
        (set_add (replace_dots_with_underscores tgt)
           (set_add (replace_dots_with_underscores src) (referenced_classes st)))
        (processed_lines st ++
           [lead ++ replace_dots_with_underscores src ++ py " " ++ rel ++ py " " ++
            replace_dots_with_underscores tgt]) /\
      In (replace_dots_with_underscores src) (referenced_classes (scan_line db st line)) /\
      In (replace_dots_with_underscores tgt) (referenced_classes (scan_line db st line)).
Proof.
  intros HD HR. apply re_match_no_shape in HD. apply re_match_shape in HR as [m HR].
  destruct (classify db line) as [p n s | l s r t |] eqn:C;
    unfold classify in C; rewrite HD, HR in C; try discriminate.
  fold (classify db line) in C.
  assert (C' : classify db line = Relationship l s r t).
  { unfold classify. now rewrite HD, HR. }
  clear C.
  destruct (classify_rel_inv _ _ C')
    as (w1 & c1 & c2 & w2 & rest & Hs & -> & _ & A0 & A1 & L1 & A2 & A3 & L3 & A4 & L4 &
        A5 & A6 & L6 & _ & G).
  exists l, s, w1, (c1 ++ c2), w2, t, rest.
  assert (Hst : forall st,
    scan_line db st line =
      ScanState (declared_classes st)
        (set_add (replace_dots_with_underscores t)
           (set_add (replace_dots_with_underscores s) (referenced_classes st)))
        (processed_lines st ++
           [l ++ replace_dots_with_underscores s ++ py " " ++ (c1 ++ c2) ++ py " " ++
            replace_dots_with_underscores t])).
  { intros st. rewrite scan_line_eq.
    unfold line_declares, line_references, rewrite_line. now rewrite C'. }
  repeat split; try assumption.
  - now rewrite <- !app_assoc.
  - intros ->. simpl in L1. lia.
  - intros ->. simpl in L6. lia.
  - now apply all_in_conn12.
  - apply Hst.
  - rewrite Hst. cbn [referenced_classes]. rewrite !set_add_in. tauto.
  - rewrite Hst. cbn [referenced_classes]. rewrite !set_add_in. tauto.
Qed.

(** C9: [ensure_classes_declared] returns a result, never an exception,
    on every list of lines; a line of neither shape is appended to the
    rewritten sequence as it is, at its own index, and the result is the
    rewritten sequence with lines inserted at one place. *)
Theorem ensure_classes_declared_never_raises (output_lines : list str) :
  (exists out, ensure_classes_declared db output_lines = Ok out) /\
  length (processed_lines (scan db output_lines)) = length output_lines /\
  (forall i line,
     nth_error output_lines i = Some line ->
     ~ matches_shape db class_declaration_pattern line ->
     ~ matches_shape db relationship_pattern line ->
     nth_error (processed_lines (scan db output_lines)) i = Some line) /\
  (exists pre ins post,
     ensure_classes_declared db output_lines = Ok (pre ++ ins ++ post) /\
     pre ++ post = processed_lines (scan db output_lines)) /\
  (forall st line,
     ~ matches_shape db class_declaration_pattern line ->
     ~ matches_shape db relationship_pattern line ->
     scan_line db st line =
     ScanState (declared_classes st) (referenced_classes st)
               (processed_lines st ++ [line])).
Proof.
  assert (HP : forall line,
     ~ matches_shape db class_declaration_pattern line ->
     ~ matches_shape db relationship_pattern line ->
     classify db line = Passthrough).
  { intros line HD HR. apply re_match_no_shape in HD, HR.
    unfold classify. now rewrite HD, HR. }
  repeat split.
  - apply ensure_classes_declared_total.
  - rewrite scan_processed. apply length_map.
  - intros i line Hi HD HR. rewrite scan_processed, nth_error_map, Hi.
    cbn [option_map]. unfold rewrite_line. now rewrite (HP line HD HR).
  - destruct (ensure_classes_declared_shape db output_lines)
      as (pre & ins & post & E & EP & _). now exists pre, ins, post.
  - intros st line HD HR. rewrite scan_line_eq.
    unfold line_declares, line_references, rewrite_line. now rewrite (HP line HD HR).
Qed.

(** No line has both the declaration shape and the relationship shape:
    after [class] and whitespace a declaration goes on with an
    identifier character, a relationship with a connector. *)
Lemma declaration_relationship_disjoint (line : str) :
  matches_shape db class_declaration_pattern line ->
  matches_shape db relationship_pattern line ->
  False.
Proof.
  intros (ps & rest & Hs & Hf) (ps' & rest' & Hs' & Hf').
  destruct (decl_shape_inv _ _ Hf)
    as (w0 & w1 & nm & w2 & b & body & -> & A0 & A1 & L1 & A2 & L2 & _).
  destruct (rel_shape_inv _ _ Hf')
    as (a0 & src & a2 & c1 & c2 & a5 & tgt & -> &
        E0 & E1 & K1 & E2 & E3 & K3 & _).
  rewrite Hs in Hs'. clear Hs.
  cbn [concat] in Hs'. rewrite <- !app_assoc in Hs'.
  change (py "c" ++ py "l" ++ py "a" ++ py "s" ++ py "s" ++
          w1 ++ nm ++ w2 ++ b ++ body ++ [] ++ rest)
    with (py "class" ++ w1 ++ nm ++ w2 ++ b ++ body ++ [] ++ rest) in Hs'.
  assert (C : all_in db wd (py "class")) by (repeat constructor).
  assert (E3' : all_in db conn c1).
  { eapply Forall_impl; [|exact E3]. exact (@conn1_conn db). }
  eapply (@run_unique db ws _ _ _ _ A0 E0) in Hs';
    [ | reflexivity | exact (@stops_head db ws wd _ _ (@wd_not_ws db) E1 K1) ].
  destruct Hs' as [_ Hs'].
  eapply (@run_unique db wd _ _ _ _ C E1) in Hs';
    [ | exact (@stops_head db wd ws _ _ (@ws_not_wd db) A1 L1)
      | apply (@stops_skip db wd ws _ _ (@ws_not_wd db) E2);
        exact (@stops_head db wd conn _ _ (@conn_not_wd db) E3' K3) ].
  destruct Hs' as [_ Hs'].
  eapply (@run_unique db ws _ _ _ _ A1 E2) in Hs';
    [ | exact (@stops_head db ws wd _ _ (@wd_not_ws db) A2 L2)
      | exact (@stops_head db ws conn _ _ (@conn_not_ws db) E3' K3) ].
  destruct Hs' as [_ Hs'].
  exact (@head_clash db wd conn _ _ _ _ (@conn_not_wd db) A2 L2 E3' K3 Hs').
Qed.

(** C10: a line of the declaration shape is never tried against the
    relationship pattern: its normalized identifier goes to the
    declared set and the referenced set stays as it was; [class A --> B]
    declares [A] and references nothing. *)
Theorem declaration_takes_precedence :
  (forall st line,
     matches_shape db class_declaration_pattern line ->
     exists m,
       re_match db class_declaration_pattern line = Some m /\
       all_in db wd (group m 2) /\
       declared_classes (scan_line db st line) =
         set_add (replace_dots_with_underscores (group m 2)) (declared_classes st) /\
       referenced_classes (scan_line db st line) = referenced_classes st) /\
  matches_shape db class_declaration_pattern (py "class A --> B") /\
  declared_classes (scan db [py "class A --> B"]) = [py "A"] /\
  referenced_classes (scan db [py "class A --> B"]) = [] /\
  ensure_classes_declared db [py "class A --> B"] = Ok [py "class A --> B"].
Proof.
  split; [|split; [|split; [|split]]].
  - intros st line HD. apply re_match_shape in HD as [m HD]. exists m.
    assert (C : classify db line =
                Declaration (group m 1) (strip db (group m 2)) (group m 3)).
    { unfold classify. now rewrite HD. }
    assert (G : all_in db wd (group m 2)).
    { destruct (re_match_some _ _ _ HD) as (ps & rest' & _ & Hf & -> & _).
      destruct (decl_shape_inv _ _ Hf) as (? & ? & nm & ? & ? & ? & -> & _ & _ & _ & A & _).
      cbn. now rewrite app_nil_r. }
    split; [exact HD|]. split; [exact G|].
    rewrite scan_line_eq. unfold line_declares, line_references. rewrite C.
    cbn. now rewrite (strip_wd G).
  - apply re_match_shape. eexists. vm_compute. reflexivity.
  - vm_compute. reflexivity.
  - vm_compute. reflexivity.
  - vm_compute. reflexivity.
Qed.

(** Where a line has the method-signature shape, the braces of the
    signature become their entity codes and the text after it is kept up
    to the first line feed. *)
Lemma signature_line_rewritten (line : str) :
  matches_shape db method_signature_pattern line ->
  exists signature suffix dropped,
    line = signature ++ suffix ++ dropped /\
    ~ In LF suffix /\
    (dropped = [] \/ exists d, dropped = LF :: d) /\
    replace_problematic_characters_in_signature db line =
    escape_braces signature ++ suffix.
Proof.
  intros H. apply re_match_shape in H as [m H].
  destruct (signature_match_inv _ _ H) as (sg & sfx & dr & Hs & -> & NL & D).
  exists sg, sfx, dr. repeat split; try assumption.
  unfold replace_problematic_characters_in_signature. rewrite H.
  cbn [group pred nth]. now rewrite pattern_sub_escape.
Qed.

(** C4: the scenario line of the specification is rewritten as the
    specification says, braces escaped inside the signature and the
    suffix kept; but the text after the signature is kept only up to the
    first line feed: [+run(): void] followed by a line feed comes back
    without the line feed. *)
Theorem signature_rest_cut_at_line_feed :
  replace_problematic_characters_in_signature db
    (py "  +initialize(config: { url: string; port: number; }): void") =
  py "  +initialize(config: &#123; url: string; port: number; &#125;): void" /\
  replace_problematic_characters_in_signature db (py "+run(): void" ++ [LF]) =
  py "+run(): void".
Proof. split; vm_compute; reflexivity. Qed.


(** C3: the suffix of a declaration line is not preserved whole: the
    first closing brace and the text after it are dropped, so that
    [class A {}] is rewritten as [class A {]. *)
Theorem declaration_rest_cut_at_closing_brace :
  ensure_classes_declared db [py "class A {}"] = Ok [py "class A {"] /\
  ensure_classes_declared db [py "class Shape { +area() } %% base"] =
  Ok [py "class Shape { +area() "].
Proof. split; vm_compute; reflexivity. Qed.

(** C8: when identifiers are missing, one line [class X] per missing
    identifier, in ascending code-point order and without repetition, is
    spliced in just before the last line that strips to the closing
    fence, after one blank line when the line before that place is not
    blank; without a closing fence a blank line and then the block are
    appended.  On the scenario of the specification the three
    declarations come before the fence, one blank line after the
    relationships. *)
Theorem missing_declarations_spliced :
  (forall output_lines,
     missing_of db output_lines <> [] ->
     exists srt sep,
       StronglySorted str_le srt /\ NoDup srt /\
       (forall x, In x srt <->
          In x (referenced_classes (scan db output_lines)) /\
          ~ In x (declared_classes (scan db output_lines))) /\
       let block := map (fun class_name => py "class " ++ class_name) srt in
       let P := processed_lines (scan db output_lines) in
       ((exists pre f post,
           P = pre ++ f :: post /\ strip db f = fence /\ Forall (not_fence db) post /\
           ((sep = [[]] /\ exists pre' y, pre = pre' ++ [y] /\ strip db y <> []) \/
            (sep = [] /\
             (pre = [] \/ exists pre' y, pre = pre' ++ [y] /\ strip db y = []))) /\
           ensure_classes_declared db output_lines =
           Ok (pre ++ sep ++ block ++ f :: post)) \/
        (Forall (not_fence db) P /\ sep = [[]] /\
         ensure_classes_declared db output_lines = Ok (P ++ sep ++ block)))) /\
  missing_of db scenario_input <> [] /\
  ensure_classes_declared db scenario_input = Ok scenario_output.
Proof.
  split; [|split].
  - intros L M.
    destruct (ensure_classes_declared_cases db L)
      as [(M' & _)|(_ & [(pre & f & post & EP & F & NF & E)|(NF & E)])];
      [contradiction| |].
    + exists (sorted (missing_of db L)), (separator db pre).
      split; [apply sorted_sorted|]. split.
      { apply sorted_nodup, set_diff_nodup, scan_referenced_nodup. }
      split.
      { intros x. rewrite sorted_in. apply set_diff_in. }
      cbv zeta. left. exists pre, f, post.
      split; [exact EP|]. split; [exact F|]. split; [exact NF|].
      split; [apply separator_spec|exact E].
    + exists (sorted (missing_of db L)), [[]].
      split; [apply sorted_sorted|]. split.
      { apply sorted_nodup, set_diff_nodup, scan_referenced_nodup. }
      split.
      { intros x. rewrite sorted_in. apply set_diff_in. }
      cbv zeta. right. split; [exact NF|]. split; [reflexivity|exact E].
  - vm_compute. discriminate.
  - vm_compute. reflexivity.
Qed.

End Claims.

Section Extras.

Variable db : unicode_db.

(** X13: a line of the declaration shape never has the relationship
    shape, so the order in which the loop tries the two patterns never
    decides how a line is classified. *)
Theorem declaration_is_not_relationship (line : str) :
  matches_shape db class_declaration_pattern line ->
  ~ matches_shape db relationship_pattern line.
Proof. intros H1 H2. exact (@declaration_relationship_disjoint db line H1 H2). Qed.

End Extras.

Lemma replace_dots_with_underscores_witness :
  replace_dots_with_underscores (py "Extension") = py "Extension".
Proof.
  destruct (replace_dots_with_underscores_spec (py "Extension")) as (_ & _ & H & _).
  apply H. vm_compute. intuition discriminate.
Defined.

Lemma signature_unmatched_witness :
  replace_problematic_characters_in_signature ascii_db (py "classDiagram") =
  py "classDiagram".
Proof.
  apply (proj1 (signature_unmatched_unchanged ascii_db)).
  apply re_match_no_shape. vm_compute. reflexivity.
Defined.

Lemma referenced_classes_are_declared_witness :
  exists out,
    ensure_classes_declared ascii_db scenario_input = Ok out /\
    declared_in ascii_db out (py "vscode_ExtensionContext") /\
    declared_in ascii_db out (py "Extension").
Proof.
  destruct (referenced_classes_are_declared ascii_db scenario_input)
    as (out & E & H1 & H2 & _).
  exists out. split; [exact E|]. split.
  - apply H2. vm_compute. right. left. reflexivity.
  - apply (H1 (py "    Extension --> vscode.ExtensionContext")
              (py "    ") (py "Extension") (py "-->") (py "vscode.ExtensionContext")).
    + vm_compute. do 7 right. left. reflexivity.
    + vm_compute. reflexivity.
Defined.

Lemma relationship_line_rewritten_witness :
  exists lead src rel tgt,
    re_match ascii_db relationship_pattern (py "  A.b<|--  C : uses") =
      Some [src; rel; tgt] /\
    processed_lines (scan_line ascii_db (scan_init) (py "  A.b<|--  C : uses")) =
      [lead ++ replace_dots_with_underscores src ++ py " " ++ rel ++ py " " ++
       replace_dots_with_underscores tgt].
Proof.
  destruct (@relationship_line_rewritten ascii_db (py "  A.b<|--  C : uses"))
    as (lead & src & w1 & rel & w2 & tgt & rest & _ & _ & _ & _ & _ & _ & _ & _ & _ & G & H).
  - apply re_match_no_shape. vm_compute. reflexivity.
  - apply re_match_shape. eexists. vm_compute. reflexivity.
  - exists lead, src, rel, tgt. split; [exact G|].
    destruct (H scan_init) as (E & _). now rewrite E.
Defined.

Lemma ensure_classes_declared_never_raises_witness :
  nth_error (processed_lines (scan ascii_db scenario_input)) 5 = Some (py "    }").
Proof.
  destruct (ensure_classes_declared_never_raises ascii_db scenario_input)
    as (_ & _ & H & _).
  apply H.
  - vm_compute. reflexivity.
  - apply re_match_no_shape. vm_compute. reflexivity.
  - apply re_match_no_shape. vm_compute. reflexivity.
Defined.

Lemma declaration_takes_precedence_witness :
  referenced_classes (scan_line ascii_db scan_init (py "class A --> B")) = [].
Proof.
  destruct (proj1 (declaration_takes_precedence ascii_db) scan_init (py "class A --> B"))
    as (m & _ & _ & _ & H).
  - apply re_match_shape. eexists. vm_compute. reflexivity.
  - exact H.
Defined.

Lemma missing_declarations_spliced_witness :
  exists srt,
    StronglySorted str_le srt /\
    forall x, In x srt <->
      In x (referenced_classes (scan ascii_db scenario_input)) /\
      ~ In x (declared_classes (scan ascii_db scenario_input)).
Proof.
  destruct (proj1 (missing_declarations_spliced ascii_db) scenario_input)
    as (srt & sep & S & _ & M & _).
  - vm_compute. discriminate.
  - now exists srt.
Defined.


Lemma line_without_brace_or_line_feed_unchanged_witness :
  replace_problematic_characters_in_signature ascii_db (py "-handle(e: Event): void") =
  py "-handle(e: Event): void".
Proof.
  apply (@line_without_brace_or_line_feed_unchanged ascii_db);
    vm_compute; intuition discriminate.
Defined.

Lemma line_without_sigil_unchanged_witness :
  replace_problematic_characters_in_signature ascii_db (py "  class MyClass {") =
  py "  class MyClass {".
Proof.
  apply (@line_without_sigil_unchanged ascii_db). vm_compute. reflexivity.
Defined.

Lemma recorded_identifiers_are_words_witness :
  py "vscode_ExtensionContext" <> [] /\
  Forall (fun c => isword ascii_db c = true) (py "vscode_ExtensionContext").
Proof.
  apply (@recorded_identifiers_are_words ascii_db scenario_input).
  right. vm_compute. right. left. reflexivity.
Defined.

Lemma relationship_line_has_no_dot_witness :
  exists new_line,
    processed_lines (scan_line ascii_db scan_init (py "  A.b<|--  C.d : uses")) =
      [new_line] /\
    ~ In (chr ".") new_line.
Proof.
  destruct (@relationship_line_has_no_dot ascii_db scan_init (py "  A.b<|--  C.d : uses"))
    as (nl & E & N).
  - apply re_match_no_shape. vm_compute. reflexivity.
  - apply re_match_shape. eexists. vm_compute. reflexivity.
  - exists nl. split; [exact E|exact N].
Defined.

Lemma synthesized_block_order_independent_witness :
  block_of ascii_db [py "A --> B"; py "class B"] =
  block_of ascii_db [py "class B"; py "A --> B"; py "class B"].
Proof.
  apply (@synthesized_block_order_independent ascii_db).
  intros l. cbn. tauto.
Defined.


Lemma declaration_is_not_relationship_witness :
  ~ matches_shape ascii_db relationship_pattern (py "class A --> B").
Proof.
  apply (@declaration_is_not_relationship ascii_db).
  apply re_match_shape. eexists. vm_compute. reflexivity.
Defined.

Lemma driver_text_framed_witness :
  concatenate_mermaid_diagrams_with_replacements ascii_db
    [(py "notes.txt", [py "Extension --> Missing"])] =
  Ok (py "```mermaid" ++ [LF] ++ py "classDiagram" ++ [LF] ++ py "```").
Proof.
  destruct (@driver_text_framed ascii_db [(py "notes.txt", [py "Extension --> Missing"])])
    as (middle & E & H).
  rewrite H in E.
  - exact E.
  - intros file [<-|[]]. vm_compute. reflexivity.
Defined.
